(** * Heart Disease Dashboard: the filter-and-aggregate engine of [app.py]

    A shallow embedding of the data path of the dashboard script: the
    table loader ([load_data]), the sidebar filter block that builds [d],
    and the six group-by / aggregate / pivot pipelines that feed the
    charts.  A data frame is a list of rows, in frame order.  A mean or
    a share that pandas computes from integer data is an exact rational,
    and [None] stands for NaN.  The correlations of chart 5 are computed
    in binary64, operation by operation as pandas' [nancorr] does. *)

From Stdlib Require Import Floats.
From Stdlib Require Import String.
From Stdlib Require Import List ZArith QArith Bool Lia Lqa Permutation Sorted.
Import ListNotations.

Local Open Scope string_scope.
Local Open Scope Z_scope.

(** ** The data model *)

(** The five categories of the [Age Group] column, in category order
    (the [labels] list of [load_data]). *)
Inductive AgeGroup : Set :=
| G30_40
| G41_50
| G51_60
| G61_70
| G71_plus.

Definition labels : list AgeGroup := [G30_40; G41_50; G51_60; G61_70; G71_plus].

Definition label_text (g : AgeGroup) : string :=
  match g with
  | G30_40 => "30-40"
  | G41_50 => "41-50"
  | G51_60 => "51-60"
  | G61_70 => "61-70"
  | G71_plus => "71+"
  end.

Definition AgeGroup_eqb (a b : AgeGroup) : bool :=
  match a, b with
  | G30_40, G30_40 | G41_50, G41_50 | G51_60, G51_60
  | G61_70, G61_70 | G71_plus, G71_plus => true
  | _, _ => false
  end.

(** One line of [heart_cleaned_fe.csv]. *)
Record Patient : Type := mkPatient {
  age : Z;
  Sex_Male : Z;
  chest_pain_type : string;
  resting_ecg : string;
  Exercise_Induced_Angina_Yes : Z;
  st_slope : string;
  resting_bp : Z;
  cholesterol : Z;
  max_hr : Z;
  oldpeak : Q;
  fasting_bs : Z;
  heart_disease : Z
}.

(** A row of the augmented frame: the csv columns and the derived
    [Age Group] column, which is null for an age outside every bin. *)
Record Row : Type := mkRow {
  patient :> Patient;
  Age_Group : option AgeGroup
}.

(** The snapshot of the five sidebar widgets. *)
Record FilterCriteria : Type := mkCriteria {
  cp : list string;
  ecg : string;
  ag : list AgeGroup;
  ang : bool;
  sex : string
}.

(** ** Distinct values, order, positions *)

Section Ordering.
Context {A : Type}.
Variable eqb : A -> A -> bool.
Variable leb : A -> A -> bool.

(** [Series.unique]: distinct values in order of first appearance. *)
Fixpoint unique (l : list A) : list A :=
  match l with
  | [] => []
  | x :: l' => x :: filter (fun y => negb (eqb x y)) (unique l')
  end.

Fixpoint insert (x : A) (l : list A) : list A :=
  match l with
  | [] => [x]
  | y :: l' => if leb x y then x :: l else y :: insert x l'
  end.

(** A stable sort in the order [leb]. *)
Definition sort (l : list A) : list A := fold_right insert [] l.

(** The sorted distinct keys of a group-by. *)
Definition sorted_keys (l : list A) : list A := sort (unique l).

Fixpoint has_duplicates (l : list A) : bool :=
  match l with
  | [] => false
  | x :: l' => existsb (eqb x) l' || has_duplicates l'
  end.

Fixpoint index_of (x : A) (l : list A) : option nat :=
  match l with
  | [] => None
  | y :: l' => if eqb x y then Some O else option_map S (index_of x l')
  end.
End Ordering.

(** ** 1) Load and preprocess *)

(** The [ValueError]s that the pandas calls of the script can raise. *)
Inductive ValueError : Set :=
| BinsNotMonotonic
| BinEdgesNotUnique
| DuplicateEntries.

Inductive result (A : Type) : Type :=
| Ok (a : A)
| Raise (e : ValueError).
Arguments Ok {A} a.
Arguments Raise {A} e.

(** [df.age.max()]: no value on an empty column. *)
Fixpoint age_max (raw : list Patient) : option Z :=
  match raw with
  | [] => None
  | p :: rest =>
      match age_max rest with
      | None => Some (age p)
      | Some m => Some (Z.max (age p) m)
      end
  end.

(** [pd.cut] with its default [right=True]: the bin between two
    consecutive edges is open on the left and closed on the right, and a
    value in no bin is null. *)
Fixpoint cut (edges : list Z) (labs : list AgeGroup) (x : Z) : option AgeGroup :=
  match edges, labs with
  | lo :: ((hi :: _) as rest), g :: labs' =>
      if (lo <? x) && (x <=? hi) then Some g else cut rest labs' x
  | _, _ => None
  end.

Fixpoint non_decreasing (l : list Z) : bool :=
  match l with
  | x :: ((y :: _) as rest) => (x <=? y) && non_decreasing rest
  | _ => true
  end.

(** [pd.cut(x, bins=, labels=)] on a list of edges: refuses edges that
    decrease and edges that repeat, then bins every value. *)
Definition pd_cut (x : list Z) (bins : list Z) (labels : list AgeGroup)
    : result (list (option AgeGroup)) :=
  if negb (non_decreasing bins) then Raise BinsNotMonotonic
  else if has_duplicates Z.eqb bins then Raise BinEdgesNotUnique
  else Ok (map (cut bins labels) x).

Definition bins (m : Z) : list Z := [29; 40; 50; 60; 70; m].

(** [load_data]: the frame with its new [Age Group] column.  An empty
    age column has no maximum, and an edge list ending in NaN is not
    increasing. *)
Definition load_data (raw : list Patient) : result (list Row) :=
  match age_max raw with
  | None => Raise BinsNotMonotonic
  | Some m =>
      match pd_cut (map age raw) (bins m) labels with
      | Ok groups => Ok (map (fun pg => mkRow (fst pg) (snd pg)) (combine raw groups))
      | Raise e => Raise e
      end
  end.

(** ** 2) Sidebar filters *)

(** [Series.isin] on a string column. *)
Definition isin (x : string) (values : list string) : bool :=
  existsb (String.eqb x) values.

(** [Series.isin] on the categorical column: a null entry is in no
    selection of categories. *)
Definition isin_group (x : option AgeGroup) (values : list AgeGroup) : bool :=
  match x with
  | Some g => existsb (AgeGroup_eqb g) values
  | None => false
  end.

(** [val = 1 if sex=='Male' else 0] *)
Definition sex_val (s : string) : Z :=
  if String.eqb s "Male" then 1 else 0.

(** The filter block, one boolean mask after the other as in the
    script. *)
Definition apply_filters (c : FilterCriteria) (df : list Row) : list Row :=
  let d := filter (fun r : Row => isin (chest_pain_type r) (cp c)) df in
  let d := if negb (String.eqb (ecg c) "All")
           then filter (fun r : Row => String.eqb (resting_ecg r) (ecg c)) d
           else d in
  let d := filter (fun r : Row => isin_group (Age_Group r) (ag c)) d in
  let d := if ang c
           then filter (fun r : Row => Exercise_Induced_Angina_Yes r =? 1) d
           else d in
  if negb (String.eqb (sex c) "All")
  then let val := sex_val (sex c) in
       filter (fun r : Row => Sex_Male r =? val) d
  else d.

(** The five predicates of the filter contract, as one proposition. *)
Definition satisfies (c : FilterCriteria) (r : Row) : Prop :=
  In (chest_pain_type r) (cp c)
  /\ (resting_ecg r = ecg c \/ ecg c = "All")
  /\ (exists g, Age_Group r = Some g /\ In g (ag c))
  /\ (ang c = true -> Exercise_Induced_Angina_Yes r = 1)
  /\ (Sex_Male r = sex_val (sex c) \/ sex c = "All").

(** The same conjunction as one mask. *)
Definition mask (c : FilterCriteria) (r : Row) : bool :=
  isin (chest_pain_type r) (cp c)
  && (String.eqb (resting_ecg r) (ecg c) || String.eqb (ecg c) "All")
  && isin_group (Age_Group r) (ag c)
  && (negb (ang c) || (Exercise_Induced_Angina_Yes r =? 1))
  && ((Sex_Male r =? sex_val (sex c)) || String.eqb (sex c) "All").

(** A frame obtained from another by dropping rows, order kept. *)
Inductive subframe {A : Type} : list A -> list A -> Prop :=
| subframe_nil : subframe [] []
| subframe_keep x s l : subframe s l -> subframe (x :: s) (x :: l)
| subframe_drop x s l : subframe s l -> subframe s (x :: l).

(** ** Frame utilities shared by the six charts *)

Definition is_empty {A : Type} (l : list A) : bool :=
  match l with
  | [] => true
  | _ :: _ => false
  end.

Definition qsum (l : list Q) : Q := fold_right Qplus 0%Q l.

Definition zsum (l : list Z) : Z := fold_right Z.add 0 l.

Definition size {A : Type} (l : list A) : Z := Z.of_nat (length l).

(** [Series.mean]: NaN on no value. *)
Definition qmean (l : list Q) : option Q :=
  match l with
  | [] => None
  | _ :: _ => Some (qsum l / inject_Z (size l))%Q
  end.

(** The mean of the [heart_disease] column of a frame. *)
Definition disease_mean (rows : list Row) : option Q :=
  qmean (map (fun r : Row => inject_Z (heart_disease r)) rows).

(** [series * 100] and [series *= 100], NaN staying NaN. *)
Definition times100 (v : option Q) : option Q :=
  option_map (fun q => q * 100)%Q v.

(** Integer true division as pandas does it when the numerator is a count
    of the denominator's group: a zero denominator only meets a zero
    numerator, and 0/0 is NaN. *)
Definition true_div (n t : Z) : option Q :=
  if t =? 0 then None else Some (inject_Z n / inject_Z t)%Q.

Definition notna {A : Type} (x : option A) : bool :=
  match x with
  | Some _ => true
  | None => false
  end.

Definition in_group (g : AgeGroup) (r : Row) : bool :=
  isin_group (Age_Group r) [g].

(** The rows of one group of a group-by on [Age Group] and a string
    column; a row with a null [Age Group] is in no group. *)
Definition group_rows (key : Row -> string) (g : AgeGroup) (k : string)
    (d : list Row) : list Row :=
  filter (fun r : Row => in_group g r && String.eqb (key r) k) d.

(** The group keys of [d.groupby(['Age Group', key])], sorted.  The
    categorical grouper is where pandas versions differ: with
    [observed=False] (the default before pandas 3) every category is
    paired with every value of the other key, with [observed=True] (the
    default since) only the pairs that have rows remain. *)
Definition group_keys (observed : bool) (key : Row -> string) (d : list Row)
    : list (AgeGroup * string) :=
  let d' := filter (fun r : Row => notna (Age_Group r)) d in
  let all := list_prod labels (sorted_keys String.eqb String.leb (map key d')) in
  if observed
  then filter (fun gk => negb (is_empty (group_rows key (fst gk) (snd gk) d))) all
  else all.

(** ** Chart 1: chest pain share by age group *)

Record MosRow : Type := mkMos {
  mos_Age_Group : AgeGroup;
  mos_chest_pain_type : string;
  mos_count : Z;
  mos_pct : option Q
}.

(** [d.groupby(['Age Group','chest_pain_type']).size().reset_index(name='count')] *)
Definition mos_counts (observed : bool) (d : list Row) : list (AgeGroup * string * Z) :=
  map (fun gk => (fst gk, snd gk, size (group_rows chest_pain_type (fst gk) (snd gk) d)))
      (group_keys observed chest_pain_type d).

(** [mos.groupby('Age Group')['count'].transform('sum')]: for each row of
    [mos] the total of the counts of its age group. *)
Definition transform_sum (mos : list (AgeGroup * string * Z)) : list Z :=
  map (fun row =>
         zsum (map snd (filter (fun row' => AgeGroup_eqb (fst (fst row')) (fst (fst row))) mos)))
      mos.

(** [mos['pct'] = mos['count'] / ...transform('sum')] *)
Definition mos (observed : bool) (d : list Row) : list MosRow :=
  let counts := mos_counts observed d in
  map (fun row : AgeGroup * string * Z * Z =>
         let '(g, k, count, total) := row in
         mkMos g k count (true_div count total))
      (combine counts (transform_sum counts)).

(** ** Chart 2: ECG count and disease rate *)

Record EcgRow : Type := mkEcg {
  e_ecg : string;
  e_count : Z;
  e_resting_ecg : string;
  e_rate : option Q
}.

(** [d.resting_ecg.value_counts()]: most frequent value first. *)
Definition ct (d : list Row) : list (string * Z) :=
  sort (fun a b => snd b <=? snd a)
       (map (fun k => (k, size (filter (fun r : Row => String.eqb (resting_ecg r) k) d)))
            (unique String.eqb (map (fun r : Row => resting_ecg r) d))).

(** [d.groupby('resting_ecg')['heart_disease'].mean()], then
    [rt['rate'] *= 100]. *)
Definition rt (d : list Row) : list (string * option Q) :=
  map (fun k => (k, times100 (disease_mean
                   (filter (fun r : Row => String.eqb (resting_ecg r) k) d))))
      (sorted_keys String.eqb String.leb (map (fun r : Row => resting_ecg r) d)).

(** [ct.merge(rt, left_on='ecg', right_on='resting_ecg')]: inner join in
    the order of the left frame. *)
Definition merge (left : list (string * Z)) (right : list (string * option Q)) : list EcgRow :=
  flat_map (fun l =>
              map (fun r => mkEcg (fst l) (snd l) (fst r) (snd r))
                  (filter (fun r => String.eqb (fst l) (fst r)) right))
           left.

Definition df_e (d : list Row) : list EcgRow :=
  merge (ct d) (rt d).

(** ** Chart 3: heatmap of age group against ST slope *)

(** A frame with one index level and one column level, as [pivot]
    builds it; [pv_values] has one list per index entry. *)
Record Pivot : Type := mkPivot {
  pv_index : list AgeGroup;
  pv_columns : list string;
  pv_values : list (list (option Q))
}.

Definition pair_eqb (a b : AgeGroup * string) : bool :=
  AgeGroup_eqb (fst a) (fst b) && String.eqb (snd a) (snd b).

(** The value of the long frame at one (index, column) pair; a pair
    that has no row gives NaN. *)
Definition long_value (long : list (AgeGroup * string * option Q))
    (g : AgeGroup) (s : string) : option Q :=
  match find (fun row => pair_eqb (fst row) (g, s)) long with
  | Some row => snd row
  | None => None
  end.

(** [frame.pivot(index=, columns=, values=)]: refuses a pair that
    occurs twice; index and columns are the distinct values, sorted. *)
Definition pivot (long : list (AgeGroup * string * option Q)) : result Pivot :=
  let keys := map fst long in
  if has_duplicates pair_eqb keys then Raise DuplicateEntries
  else
    let index := filter (fun g => existsb (fun k => AgeGroup_eqb (fst k) g) keys) labels in
    let columns := sorted_keys String.eqb String.leb (map snd keys) in
    Ok (mkPivot index columns
          (map (fun g => map (fun s => long_value long g s) columns) index)).

(** [d.groupby(['Age Group','st_slope'])['heart_disease'].mean().reset_index()] *)
Definition slope_means (observed : bool) (d : list Row)
    : list (AgeGroup * string * option Q) :=
  map (fun gk => (gk, disease_mean (group_rows st_slope (fst gk) (snd gk) d)))
      (group_keys observed st_slope d).

Definition heat (observed : bool) (d : list Row) : result Pivot :=
  match pivot (slope_means observed d) with
  | Ok p => Ok (mkPivot (pv_index p) (pv_columns p)
                        (map (map times100) (pv_values p)))
  | Raise e => Raise e
  end.

(** [heat.loc[g, s]], with NaN also for a label that the frame lacks. *)
Definition cell (p : Pivot) (g : AgeGroup) (s : string) : option Q :=
  match index_of AgeGroup_eqb g (pv_index p), index_of String.eqb s (pv_columns p) with
  | Some i, Some j => nth j (nth i (pv_values p) []) None
  | _, _ => None
  end.

(** ** Chart 4: disease rate by chest pain type and sex *)

Record BubbleRow : Type := mkBubble {
  b_Sex_Male : Z;
  b_chest_pain_type : string;
  b_count : Z;
  b_rate : option Q;
  b_Sex : option string
}.

Definition sex_rows (v : Z) (k : string) (d : list Row) : list Row :=
  filter (fun r : Row => (Sex_Male r =? v) && String.eqb (chest_pain_type r) k) d.

(** [df4['Sex: Male'].map({0:'Female',1:'Male'})] *)
Definition sex_label (v : Z) : option string :=
  if v =? 0 then Some "Female" else if v =? 1 then Some "Male" else None.

(** [d.groupby(['Sex: Male','chest_pain_type']).agg(count=size, rate=mean)],
    neither key categorical: only the pairs that have rows. *)
Definition df4 (d : list Row) : list BubbleRow :=
  map (fun vk =>
         let rows := sex_rows (fst vk) (snd vk) d in
         mkBubble (fst vk) (snd vk) (size rows) (times100 (disease_mean rows))
                  (sex_label (fst vk)))
      (filter (fun vk => negb (is_empty (sex_rows (fst vk) (snd vk) d)))
              (list_prod (sorted_keys Z.eqb Z.leb (map (fun r : Row => Sex_Male r) d))
                         (sorted_keys String.eqb String.leb
                                      (map (fun r : Row => chest_pain_type r) d)))).

(** ** Chart 6: disease rate trend by age group and chest pain type *)

(** [d.groupby(['Age Group','chest_pain_type'])['heart_disease'].mean()
      .reset_index(name='rate')] *)
Definition ln (observed : bool) (d : list Row) : list (AgeGroup * string * option Q) :=
  map (fun gk => (gk, disease_mean (group_rows chest_pain_type (fst gk) (snd gk) d)))
      (group_keys observed chest_pain_type d).

(** ** Chart 5: absolute correlation with heart disease *)

(** [cols], each name with the column it reads. *)
Definition cols : list (string * (Patient -> Q)) :=
  [ ("age", fun p => inject_Z (age p));
    ("resting_bp", fun p => inject_Z (resting_bp p));
    ("cholesterol", fun p => inject_Z (cholesterol p));
    ("max_hr", fun p => inject_Z (max_hr p));
    ("oldpeak", fun p => oldpeak p);
    ("fasting_bs", fun p => inject_Z (fasting_bs p)) ].

(** The frame as the float64 matrix that [DataFrame.corr] works on
    ([to_numpy(dtype=float)]): an integer is rounded to the nearest
    binary64 number, ties to even. *)
Definition Z2float (z : Z) : float :=
  SF2Prim (binary_normalize prec emax z 0 false).

(** The binary64 number of a rational column value: an integral value
    converts as the integer does, a fraction as the rounded quotient. *)
Definition Q2float (q : Q) : float :=
  let q := Qred q in
  if Pos.eqb (Qden q) 1 then Z2float (Qnum q)
  else (Z2float (Qnum q) / Z2float (Zpos (Qden q)))%float.

(** The running sums that [nancorr] keeps for one pair of columns
    (Welford's method). *)
Record Welford : Set := mkWelford {
  nobs : Z;
  meanx : float;
  meany : float;
  ssqdm_x : float;
  ssqdm_y : float;
  covxy : float
}.

(** [nobs = ssqdm_x = ssqdm_y = covxy = meanx = meany = 0] *)
Definition welford_init : Welford := mkWelford 0 0 0 0 0 0.

(** One turn of the row loop: a row counts when both of its values are
    finite ([mask[i, xi] and mask[i, yi]]). *)
Definition welford_step (st : Welford) (vx vy : float) : Welford :=
  if is_finite vx && is_finite vy then
    let nobs := nobs st + 1 in
    let dx := (vx - meanx st)%float in
    let dy := (vy - meany st)%float in
    let meanx := (meanx st + 1 / Z2float nobs * dx)%float in
    let meany := (meany st + 1 / Z2float nobs * dy)%float in
    mkWelford nobs meanx meany
      (ssqdm_x st + (vx - meanx) * dx)%float
      (ssqdm_y st + (vy - meany) * dy)%float
      (covxy st + (vx - meanx) * dy)%float
  else st.

Definition welford (xs ys : list float) : Welford :=
  fold_left (fun st xy => welford_step st (fst xy) (snd xy))
            (combine xs ys) welford_init.

(** The entry that [nancorr] stores after the row loop, with
    [min_periods = 1]: NaN without a row or with a zero divisor.  Where
    pandas versions differ is the clipping of the quotient to [-1, 1]:
    [clip] tells whether the version at hand does it, as pandas 3
    does. *)
Definition coefficient (clip : bool) (st : Welford) : float :=
  if nobs st <? 1 then nan else
  let divisor := PrimFloat.sqrt (ssqdm_x st * ssqdm_y st) in
  if negb (divisor =? 0)%float then
    let val := (covxy st / divisor)%float in
    if clip then
      if (1 <? val)%float then 1%float
      else if (val <? -1)%float then (-1)%float
      else val
    else val
  else nan.

(** Pearson's coefficient of two columns as [DataFrame.corr] computes
    it. *)
Definition pearson (clip : bool) (xs ys : list float) : float :=
  coefficient clip (welford xs ys).

(** A float as a vector entry: [None] for NaN. *)
Definition dropnan (x : float) : option float :=
  if is_nan x then None else Some x.

(** [frame[cols+['heart_disease']].corr()['heart_disease'].abs()
      .drop('heart_disease').reset_index(name='corr')]: the outcome is
    the last column of the matrix, so it is the column [xi] of the
    loop and the feature is the column [yi]. *)
Definition abs_corr (clip : bool) (rows : list Row) : list (string * option float) :=
  map (fun c : string * (Patient -> Q) =>
         (fst c,
          dropnan
            (PrimFloat.abs
               (pearson clip
                  (map (fun r : Row => Z2float (heart_disease r)) rows)
                  (map (fun r : Row => Q2float (snd c r)) rows)))))
      cols.

(** [Series.nunique] of the sex flag. *)
Definition nunique_sex (d : list Row) : nat :=
  List.length (unique Z.eqb (map (fun r : Row => Sex_Male r) d)).

(** What chart 5 draws: two radar traces or one polar bar chart. *)
Inductive Fig5 : Type :=
| Scatterpolar2 (cm cf : list (string * option float))
| BarPolar (c0 : list (string * option float)).

Definition fig5 (clip : bool) (d : list Row) : Fig5 :=
  if (1 <? nunique_sex d)%nat
  then Scatterpolar2
         (abs_corr clip (filter (fun r : Row => Sex_Male r =? 1) d))
         (abs_corr clip (filter (fun r : Row => Sex_Male r =? 0) d))
  else BarPolar (abs_corr clip d).

(** The correlation vectors that chart 5 computes. *)
Definition vectors (f : Fig5) : list (list (string * option float)) :=
  match f with
  | Scatterpolar2 cm cf => [cm; cf]
  | BarPolar c0 => [c0]
  end.

(** ** The bins as the specification words them *)

(** Closed integer intervals [30,40], [41,50], [51,60], [61,70] and
    [71,max], to be compared with what [cut] does on the edges of
    [load_data]. *)
Definition bin_lo (g : AgeGroup) : Z :=
  match g with
  | G30_40 => 30
  | G41_50 => 41
  | G51_60 => 51
  | G61_70 => 61
  | G71_plus => 71
  end.

Definition bin_hi (m : Z) (g : AgeGroup) : Z :=
  match g with
  | G30_40 => 40
  | G41_50 => 50
  | G51_60 => 60
  | G61_70 => 70
  | G71_plus => m
  end.

Definition in_bin (m : Z) (g : AgeGroup) (a : Z) : Prop :=
  bin_lo g <= a <= bin_hi m g.

(** ** A small table to evaluate the definitions on *)

Definition p28 : Patient :=
  mkPatient 28 1 "ATA" "LVH" 0 "Up" 130 132 185 0 0 0.
Definition p45 : Patient :=
  mkPatient 45 0 "ATA" "Normal" 0 "Up" 130 237 170 0 0 0.
Definition p49 : Patient :=
  mkPatient 49 0 "NAP" "Normal" 0 "Flat" 160 180 156 1 0 1.
Definition p58 : Patient :=
  mkPatient 58 1 "ASY" "ST" 1 "Flat" 136 164 99 2 0 1.
Definition p65 : Patient :=
  mkPatient 65 1 "ASY" "Normal" 1 "Flat" 140 306 87 (3 # 2) 1 1.
Definition p77 : Patient :=
  mkPatient 77 1 "ASY" "ST" 1 "Up" 125 304 162 0 0 1.

Definition sample_raw : list Patient := [p28; p45; p49; p58; p65; p77].

Definition sample_df : list Row :=
  [ mkRow p28 None; mkRow p45 (Some G41_50); mkRow p49 (Some G41_50);
    mkRow p58 (Some G51_60); mkRow p65 (Some G61_70); mkRow p77 (Some G71_plus) ].

(** Every widget at its default: nothing deselected. *)
Definition sample_all : FilterCriteria :=
  mkCriteria ["ATA"; "NAP"; "ASY"] "All" labels false "All".

(** The filtered sample table under the default widgets, and a table of
    men only. *)
Definition sample_d : list Row :=
  [ mkRow p45 (Some G41_50); mkRow p49 (Some G41_50);
    mkRow p58 (Some G51_60); mkRow p65 (Some G61_70); mkRow p77 (Some G71_plus) ].

Definition sample_men : list Row :=
  [ mkRow p58 (Some G51_60); mkRow p65 (Some G61_70); mkRow p77 (Some G71_plus) ].

(** The angina checkbox ticked and "Male" selected. *)
Definition sample_angina_men : FilterCriteria :=
  mkCriteria ["ATA"; "NAP"; "ASY"] "All" labels true "Male".

(** The chest pain multiselect emptied, the other widgets untouched. *)
Definition sample_none : FilterCriteria :=
  mkCriteria [] "All" labels false "All".

(** Five men, the two younger ones healthy, who differ in age and
    outcome only. *)
Definition p42 : Patient :=
  mkPatient 42 1 "ATA" "Normal" 0 "Up" 130 200 150 0 0 0.
Definition p61 : Patient :=
  mkPatient 61 1 "ATA" "Normal" 0 "Up" 130 200 150 0 0 1.

Definition sample_age : list Row :=
  [ mkRow p42 (Some G41_50); mkRow p42 (Some G41_50);
    mkRow p61 (Some G61_70); mkRow p61 (Some G61_70); mkRow p61 (Some G61_70) ].

(** Two men whose cholesterol entries, 2^53 and 2^53 + 1, are one and
    the same binary64 number. *)
Definition sample_large : list Row :=
  [ mkRow (mkPatient 42 1 "ATA" "Normal" 0 "Up" 130 9007199254740992 150 0 0 0)
          (Some G41_50);
    mkRow (mkPatient 61 1 "ATA" "Normal" 0 "Up" 130 9007199254740993 150 0 0 1)
          (Some G61_70) ].

(** The data model's invariant on the outcome column: a 0/1 label. *)
Definition binary_outcome (d : list Row) : Prop :=
  forall r : Row, In r d -> heart_disease r = 0 \/ heart_disease r = 1.

(** A column that takes one value only on the given rows, which is the
    case of every column on fewer than two rows. *)
Definition constant_on (f : Patient -> Q) (rows : list Row) : Prop :=
  forall r1 r2 : Row, In r1 rows -> In r2 rows -> (f r1 == f r2)%Q.

Definition outcome (p : Patient) : Q := inject_Z (heart_disease p).

(** What holds of one entry of a correlation vector: it is NaN where
    the feature or the outcome does not vary, and a number that is
    there is not negative and, when the coefficient is clipped, not
    above 1. *)
Definition magnitude_or_nan (clip : bool) (rows : list Row) (f : Patient -> Q)
    (v : option float) : Prop :=
  (constant_on f rows \/ constant_on outcome rows -> v = None)
  /\ forall x, v = Some x ->
       (0 <=? x)%float = true /\ (clip = true -> (x <=? 1)%float = true).

(** ** Running sums of a column without spread *)

Definition sf_zero (x : spec_float) : Prop :=
  match x with
  | S754_zero _ => True
  | _ => False
  end.

Definition sf_zero_or_nan (x : spec_float) : Prop :=
  match x with
  | S754_zero _ | S754_nan => True
  | _ => False
  end.

(** 1.0 *)
Definition sf_one : spec_float := S754_finite false 4503599627370496 (-52).

(** The state of one column of the row loop as long as every value
    seen was [c]: the value is at no distance from the running mean and
    the sum of squares is zero, or the sum of squares is NaN. *)
Definition flat (c mean ssq : spec_float) : Prop :=
  (sf_zero (SF64sub c mean) /\ sf_zero ssq) \/ ssq = S754_nan.

Definition flat_x (c : float) (st : Welford) : Prop :=
  st = welford_init
  \/ flat (Prim2SF c) (Prim2SF (meanx st)) (Prim2SF (ssqdm_x st)).

Definition flat_y (c : float) (st : Welford) : Prop :=
  st = welford_init
  \/ flat (Prim2SF c) (Prim2SF (meany st)) (Prim2SF (ssqdm_y st)).

(** ** The sidebar widgets and their initial state *)

(** [df.chest_pain_type.unique()], options and default of the first
    multiselect. *)
Definition cp_options (df : list Row) : list string :=
  unique String.eqb (map (fun r : Row => chest_pain_type r) df).

(** [['All'] + df.resting_ecg.unique().tolist()] *)
Definition ecg_options (df : list Row) : list string :=
  "All" :: unique String.eqb (map (fun r : Row => resting_ecg r) df).

(** [df['Age Group'].cat.categories.tolist()], options and default of
    the second multiselect. *)
Definition ag_options : list AgeGroup := labels.

Definition sex_options : list string := ["All"; "Male"; "Female"].

(** What the widgets return before the user touches them: a multiselect
    its default, a selectbox its first option, a checkbox [False]. *)
Definition sidebar_defaults (df : list Row) : FilterCriteria :=
  mkCriteria (cp_options df) (hd "" (ecg_options df)) ag_options false
             (hd "" sex_options).

(** The same widgets with another choice in the sex selectbox. *)
Definition with_sex (s : string) (c : FilterCriteria) : FilterCriteria :=
  mkCriteria (cp c) (ecg c) (ag c) (ang c) s.

(** A widget state that asks for at least as much as another one. *)
Definition narrower (c c' : FilterCriteria) : Prop :=
  incl (cp c) (cp c')
  /\ (ecg c' = "All" \/ ecg c = ecg c')
  /\ incl (ag c) (ag c')
  /\ (ang c' = true -> ang c = true)
  /\ (sex c' = "All" \/ sex c = sex c').

(** The position of a category in the categorical dtype. *)
Definition code (g : AgeGroup) : Z :=
  match index_of AgeGroup_eqb g labels with
  | Some i => Z.of_nat i
  | None => -1
  end.

(** The data model's invariant on the one-hot sex column. *)
Definition binary_sex (d : list Row) : Prop :=
  forall r : Row, In r d -> Sex_Male r = 0 \/ Sex_Male r = 1.

(** A table of one man and one woman. *)
Definition sample_pair : list Row :=
  [ mkRow p45 (Some G41_50); mkRow p58 (Some G51_60) ].

(** * Properties *)

(** ** The definitions on the sample table *)

Example load_sample : load_data sample_raw = Ok sample_df.
Proof. reflexivity. Qed.

Example load_refuses_young_table :
  load_data [p28; p45; p49] = Raise BinsNotMonotonic
  /\ load_data [mkPatient 70 1 "ASY" "ST" 1 "Flat" 130 250 110 1 0 1] = Raise BinEdgesNotUnique.
Proof. split; reflexivity. Qed.

Example filter_sample : apply_filters sample_all sample_df = sample_d.
Proof. reflexivity. Qed.

Example filter_sample_men : apply_filters sample_angina_men sample_df = sample_men.
Proof. reflexivity. Qed.

Example ln_keys_observed :
  map fst (ln true sample_d)
  = [ (G41_50, "ATA"); (G41_50, "NAP"); (G51_60, "ASY");
      (G61_70, "ASY"); (G71_plus, "ASY") ].
Proof. reflexivity. Qed.

Example ln_unobserved_pair : In (G30_40, "ASY", None) (ln false sample_d).
Proof. left. reflexivity. Qed.

Example ct_sample : ct sample_d = [("Normal", 3); ("ST", 2)].
Proof. reflexivity. Qed.

Example abs_corr_men (clip : bool) :
  abs_corr clip sample_men = map (fun c => (fst c, None)) cols.
Proof. destruct clip; reflexivity. Qed.

(** The two women of the sample table: age, maximal heart rate and
    oldpeak go with the outcome, the blood pressure does too, and the
    fasting blood sugar is the same for both. *)
Example abs_corr_women (clip : bool) :
  abs_corr clip (filter (fun r : Row => Sex_Male r =? 0) sample_d)
  = [ ("age", Some 1%float); ("resting_bp", Some 1%float);
      ("cholesterol", Some 1%float); ("max_hr", Some 1%float);
      ("oldpeak", Some 1%float); ("fasting_bs", None) ].
Proof. destruct clip; reflexivity. Qed.

(** Rounding can put an unclipped coefficient above 1: the ages 42, 42,
    61, 61, 61 against the outcomes 0, 0, 1, 1, 1. *)
Example abs_corr_above_one :
  In ("age", Some 0x1.0000000000001p+0%float) (abs_corr false sample_age)
  /\ In ("age", Some 1%float) (abs_corr true sample_age).
Proof. split; left; reflexivity. Qed.

Example Q2float_oldpeak : Q2float (oldpeak p65) = 1.5%float.
Proof. reflexivity. Qed.

(** ** Generic facts on frames *)

Lemma filter_twice {A : Type} (f g : A -> bool) (l : list A) :
  filter g (filter f l) = filter (fun x => f x && g x) l.
Proof.
  induction l as [|x l IH]; simpl; trivial.
  destruct (f x); simpl; [destruct (g x)|]; now rewrite IH.
Qed.

Lemma subframe_filter {A : Type} (f : A -> bool) (l : list A) :
  subframe (filter f l) l.
Proof.
  induction l as [|x l IH]; simpl.
  - constructor.
  - destruct (f x); now constructor.
Qed.

Lemma AgeGroup_eqb_eq (a b : AgeGroup) : AgeGroup_eqb a b = true <-> a = b.
Proof. destruct a, b; simpl; split; congruence. Qed.

Lemma AgeGroup_eqb_refl (a : AgeGroup) : AgeGroup_eqb a a = true.
Proof. now apply AgeGroup_eqb_eq. Qed.

Lemma isin_In (x : string) (l : list string) : isin x l = true <-> In x l.
Proof.
  unfold isin. rewrite existsb_exists. split.
  - intros [y [Hy E]]. apply String.eqb_eq in E. now subst.
  - intros H. exists x. split; trivial. apply String.eqb_refl.
Qed.

Lemma isin_group_In (x : option AgeGroup) (l : list AgeGroup) :
  isin_group x l = true <-> exists g, x = Some g /\ In g l.
Proof.
  destruct x as [g|]; simpl.
  - rewrite existsb_exists. split.
    + intros [y [Hy E]]. apply AgeGroup_eqb_eq in E. subst. eauto.
    + intros [g' [E H]]. injection E as ->. exists g'. split; trivial.
      apply AgeGroup_eqb_refl.
  - split; [discriminate|]. intros [g [E _]]. discriminate.
Qed.

(** ** The filter block *)

(** The five successive masks amount to the one conjunction. *)
Lemma apply_filters_mask (c : FilterCriteria) (df : list Row) :
  apply_filters c df = filter (mask c) df.
Proof.
  unfold apply_filters.
  set (all_ecg := String.eqb (ecg c) "All").
  set (all_sex := String.eqb (sex c) "All").
  assert (E1 : (if negb all_ecg
                then filter (fun r : Row => String.eqb (resting_ecg r) (ecg c))
                       (filter (fun r : Row => isin (chest_pain_type r) (cp c)) df)
                else filter (fun r : Row => isin (chest_pain_type r) (cp c)) df)
               = filter (fun r : Row => isin (chest_pain_type r) (cp c)
                                        && (String.eqb (resting_ecg r) (ecg c) || all_ecg)) df).
  { destruct all_ecg; simpl.
    - apply filter_ext. intros r. now rewrite orb_true_r, andb_true_r.
    - rewrite filter_twice. apply filter_ext. intros r. now rewrite orb_false_r. }
  rewrite E1, filter_twice.
  destruct (ang c) eqn:Ea; destruct all_sex eqn:Es; simpl;
    rewrite ?filter_twice; apply filter_ext; intros r; unfold mask;
    fold all_ecg; fold all_sex; rewrite Ea, Es; simpl;
    rewrite ?orb_true_r, ?orb_false_r, ?andb_true_r, ?andb_assoc; reflexivity.
Qed.

Lemma mask_satisfies (c : FilterCriteria) (r : Row) :
  mask c r = true <-> satisfies c r.
Proof.
  unfold mask, satisfies.
  rewrite !andb_true_iff, !orb_true_iff, isin_In, isin_group_In,
    !String.eqb_eq, !Z.eqb_eq, negb_true_iff.
  split.
  - intros [[[[H1 H2] H3] H4] H5]. repeat split; trivial.
    intros E. destruct H4 as [H4|H4]; congruence.
  - intros (H1 & H2 & H3 & H4 & H5). repeat split; trivial.
    destruct (ang c); [right; now apply H4 | now left].
Qed.

(** C1.  For every filter criteria the filtered table is the augmented
    table with rows dropped, and a row of the augmented table is in the
    filtered table exactly when it satisfies the five predicates at
    once: chest pain type in the selection, resting ECG equal to the
    selection unless that is 'All', age group in the selection, the
    angina flag equal to 1 when the checkbox is set, the sex flag equal
    to the selected value unless the selection is 'All'. *)
Theorem filter_contract (c : FilterCriteria) (df : list Row) :
  subframe (apply_filters c df) df
  /\ (forall r, In r (apply_filters c df) <-> In r df /\ satisfies c r).
Proof.
  rewrite apply_filters_mask. split.
  - apply subframe_filter.
  - intros r. rewrite filter_In, mask_satisfies. reflexivity.
Qed.

(** C9.  Filtering a table that has already been filtered with the
    same criteria changes nothing. *)
Theorem filter_idempotent (c : FilterCriteria) (df : list Row) :
  apply_filters c (apply_filters c df) = apply_filters c df.
Proof.
  rewrite !apply_filters_mask, filter_twice.
  apply filter_ext. intros r. now destruct (mask c r).
Qed.

(** ** The loader *)

Lemma cut_bins_Some (m a : Z) (g : AgeGroup) :
  70 < m -> (cut (bins m) labels a = Some g <-> in_bin m g a).
Proof.
  intros Hm. unfold in_bin, bins, labels. simpl.
  repeat match goal with
         | |- context [?x <? ?y] => destruct (Z.ltb_spec x y); simpl
         | |- context [?x <=? ?y] => destruct (Z.leb_spec x y); simpl
         end;
    destruct g; simpl; split; intros H'; try discriminate; try lia; try reflexivity.
Qed.

Lemma cut_bins_None (m a : Z) :
  70 < m -> (cut (bins m) labels a = None <-> a < 30 \/ m < a).
Proof.
  intros Hm. unfold bins, labels. simpl.
  repeat match goal with
         | |- context [?x <? ?y] => destruct (Z.ltb_spec x y); simpl
         | |- context [?x <=? ?y] => destruct (Z.leb_spec x y); simpl
         end;
    split; intros H'; try discriminate; try lia; try reflexivity.
Qed.

Lemma in_bin_unique (m a : Z) (g g' : AgeGroup) :
  70 < m -> in_bin m g a -> in_bin m g' a -> g = g'.
Proof.
  unfold in_bin. intros Hm H H'.
  destruct g, g'; simpl in *; trivial; lia.
Qed.

Lemma age_max_bound (raw : list Patient) (m : Z) :
  age_max raw = Some m -> forall p, In p raw -> age p <= m.
Proof.
  revert m. induction raw as [|q raw IH]; simpl; intros m E p Hp; [easy|].
  destruct (age_max raw) as [m'|] eqn:Em.
  - injection E as <-. destruct Hp as [->|Hp]; [lia|].
    specialize (IH m' eq_refl p Hp). lia.
  - injection E as <-. destruct Hp as [->|Hp]; [lia|].
    destruct raw; [easy | simpl in Em; destruct (age_max raw); discriminate].
Qed.

Lemma combine_map_r {A B : Type} (h : A -> B) (l : list A) :
  combine l (map h l) = map (fun x => (x, h x)) l.
Proof. induction l as [|x l IH]; simpl; congruence. Qed.

(** The edges of [load_data] pass the checks of [pd.cut] exactly when
    the oldest patient is over 70. *)
Lemma pd_cut_bins (x : list Z) (m : Z) :
  pd_cut x (bins m) labels
  = if m <? 70 then Raise BinsNotMonotonic
    else if m =? 70 then Raise BinEdgesNotUnique
    else Ok (map (cut (bins m) labels) x).
Proof.
  unfold pd_cut, bins. cbn [non_decreasing has_duplicates existsb].
  destruct (Z.leb_spec 70 m) as [H|H]; destruct (Z.ltb_spec m 70); try lia;
    [|reflexivity].
  assert (E : forall k, k < 70 -> (k =? m) = false).
  { intros k Hk. apply Z.eqb_neq. lia. }
  rewrite !E by lia. rewrite (Z.eqb_sym 70 m).
  destruct (m =? 70); reflexivity.
Qed.

(** What a successful load looks like. *)
Lemma load_data_Ok (raw : list Patient) (df : list Row) :
  load_data raw = Ok df ->
  exists m, age_max raw = Some m /\ 70 < m
            /\ df = map (fun p => mkRow p (cut (bins m) labels (age p))) raw.
Proof.
  unfold load_data. destruct (age_max raw) as [m|]; [|discriminate].
  rewrite pd_cut_bins.
  destruct (Z.ltb_spec m 70); [discriminate|].
  destruct (Z.eqb_spec m 70); [discriminate|].
  intros E. injection E as <-. exists m. repeat split; trivial; [lia|].
  rewrite map_map, combine_map_r, map_map. reflexivity.
Qed.

Lemma load_data_row (raw : list Patient) (df : list Row) (m : Z) (r : Row) :
  load_data raw = Ok df -> age_max raw = Some m -> In r df ->
  70 < m /\ age r <= m /\ Age_Group r = cut (bins m) labels (age r).
Proof.
  intros L Em Hr. destruct (load_data_Ok _ _ L) as (m' & Em' & Hm & ->).
  assert (m' = m) by congruence. subst m'.
  apply in_map_iff in Hr. destruct Hr as (p & <- & Hp). simpl.
  repeat split; trivial. now apply (age_max_bound raw m Em).
Qed.

(** C4 (as amended).  Once the table is loaded, the age group is a
    function of age that puts every record aged 30 or more into exactly
    one of the five contiguous, non-overlapping bins [30,40], [41,50],
    [51,60], [61,70], [71,max]; a record aged 45 is in "41-50". *)
Theorem age_group_bins (raw : list Patient) (df : list Row) :
  load_data raw = Ok df ->
  exists m, age_max raw = Some m /\
    forall r, In r df ->
      (30 <= age r ->
       exists g, Age_Group r = Some g /\ in_bin m g (age r)
                 /\ forall g', in_bin m g' (age r) -> g' = g)
      /\ (age r = 45 -> Age_Group r = Some G41_50 /\ label_text G41_50 = "41-50")
      /\ (forall r', In r' df -> age r' = age r -> Age_Group r' = Age_Group r).
Proof.
  intros L. destruct (load_data_Ok _ _ L) as (m & Em & Hm & _).
  exists m. split; trivial. intros r Hr.
  destruct (load_data_row _ _ _ _ L Em Hr) as (_ & Hle & Hg).
  split; [|split].
  - intros H30. destruct (cut (bins m) labels (age r)) as [g|] eqn:Ec.
    + exists g. apply cut_bins_Some in Ec; trivial.
      split; [assumption|]. split; [assumption|].
      intros g' Hg'. now apply (in_bin_unique m (age r)).
    + apply cut_bins_None in Ec; trivial. lia.
  - intros E45. split; [|reflexivity].
    rewrite Hg. apply cut_bins_Some; trivial. unfold in_bin. simpl. lia.
  - intros r' Hr' Ea.
    destruct (load_data_row _ _ _ _ L Em Hr') as (_ & _ & Hg').
    now rewrite Hg, Hg', Ea.
Qed.

Lemma age_group_bins_witness :
  exists m, age_max sample_raw = Some m /\
    forall r, In r sample_df ->
      (30 <= age r ->
       exists g, Age_Group r = Some g /\ in_bin m g (age r)
                 /\ forall g', in_bin m g' (age r) -> g' = g)
      /\ (age r = 45 -> Age_Group r = Some G41_50 /\ label_text G41_50 = "41-50")
      /\ (forall r', In r' sample_df -> age r' = age r -> Age_Group r' = Age_Group r).
Proof. apply (age_group_bins sample_raw sample_df). reflexivity. Defined.

(** C4 as first stated does not hold: the table loads, and its record
    aged 28 is in none of the five bins. *)
Lemma age_group_bins_not_total :
  load_data sample_raw = Ok sample_df
  /\ ~ (forall r, In r sample_df -> exists g, Age_Group r = Some g).
Proof.
  split; [reflexivity|]. intros H.
  destruct (H (mkRow p28 None)) as [g Hg]; [simpl; auto | discriminate].
Qed.

(** C10.  A record younger than 30 gets no age group, and no selection
    of age groups, not even all five, keeps it in the filtered table. *)
Theorem under_30_excluded (raw : list Patient) (df : list Row) (r : Row) :
  load_data raw = Ok df -> In r df -> age r < 30 ->
  Age_Group r = None /\ forall c, ~ In r (apply_filters c df).
Proof.
  intros L Hr Ha. destruct (load_data_Ok _ _ L) as (m & Em & Hm & _).
  destruct (load_data_row _ _ _ _ L Em Hr) as (_ & _ & Hg).
  assert (HN : Age_Group r = None).
  { rewrite Hg. apply cut_bins_None; trivial. now left. }
  split; trivial. intros c Hin.
  rewrite apply_filters_mask in Hin. apply filter_In in Hin.
  destruct Hin as [_ Hk]. apply mask_satisfies in Hk.
  destruct Hk as (_ & _ & [g [Hs _]] & _). congruence.
Qed.

Lemma under_30_excluded_witness :
  Age_Group (mkRow p28 None) = None
  /\ forall c, ~ In (mkRow p28 None) (apply_filters c sample_df).
Proof.
  apply (under_30_excluded sample_raw sample_df (mkRow p28 None)).
  - reflexivity.
  - simpl. auto.
  - simpl. lia.
Defined.

(** ** Distinct values, sorting, group keys *)

Section OrderingFacts.
Context {A : Type}.
Variable eqb : A -> A -> bool.
Hypothesis eqb_eq : forall x y, eqb x y = true <-> x = y.

Lemma eqb_dec (x y : A) : {x = y} + {x <> y}.
Proof.
  destruct (eqb x y) eqn:E.
  - left. now apply eqb_eq.
  - right. intros H. apply eqb_eq in H. congruence.
Qed.

Lemma unique_In (l : list A) (x : A) : In x (unique eqb l) <-> In x l.
Proof.
  induction l as [|a l IH]; simpl; [reflexivity|].
  rewrite filter_In, IH, negb_true_iff.
  destruct (eqb_dec a x) as [->|N].
  - intuition.
  - assert (eqb a x = false).
    { destruct (eqb a x) eqn:E; trivial. apply eqb_eq in E. contradiction. }
    intuition.
Qed.

Lemma unique_NoDup (l : list A) : NoDup (unique eqb l).
Proof.
  induction l as [|a l IH]; simpl; constructor.
  - rewrite filter_In, negb_true_iff. intros [_ E].
    assert (eqb a a = true) by now apply eqb_eq. congruence.
  - now apply NoDup_filter.
Qed.

(** A column has more than one distinct value exactly when two of its
    entries differ. *)
Lemma unique_two (l : list A) :
  (1 < List.length (unique eqb l))%nat
  <-> exists x y, In x l /\ In y l /\ x <> y.
Proof.
  split.
  - intros H. pose proof (unique_NoDup l) as N.
    destruct (unique eqb l) as [|a [|b u]] eqn:E; simpl in H; try lia.
    exists a, b. split; [|split].
    + apply unique_In. rewrite E. simpl. auto.
    + apply unique_In. rewrite E. simpl. auto.
    + intros ->. inversion N as [|? ? Hn _]. apply Hn. now left.
  - intros (x & y & Hx & Hy & N).
    apply unique_In in Hx, Hy.
    destruct (unique eqb l) as [|a [|b u]]; simpl in *; try lia; intuition congruence.
Qed.

Lemma has_duplicates_false (l : list A) :
  NoDup l -> has_duplicates eqb l = false.
Proof.
  induction 1 as [|x l Hx _ IH]; simpl; trivial.
  rewrite IH, orb_false_r.
  destruct (existsb (eqb x) l) eqn:E; trivial.
  apply existsb_exists in E. destruct E as (y & Hy & E).
  apply eqb_eq in E. now subst.
Qed.

Variable leb : A -> A -> bool.

Lemma insert_Permutation (x : A) (l : list A) :
  Permutation (insert leb x l) (x :: l).
Proof.
  induction l as [|y l IH]; simpl; [reflexivity|].
  destruct (leb x y); [reflexivity|].
  rewrite IH. apply perm_swap.
Qed.

Lemma sort_Permutation (l : list A) : Permutation (sort leb l) l.
Proof.
  induction l as [|x l IH]; simpl; [reflexivity|].
  rewrite insert_Permutation. now constructor.
Qed.

Lemma sorted_keys_In (l : list A) (x : A) :
  In x (sorted_keys eqb leb l) <-> In x l.
Proof.
  unfold sorted_keys. rewrite <- (unique_In l x). split; apply Permutation_in.
  - apply sort_Permutation.
  - symmetry. apply sort_Permutation.
Qed.

Lemma sorted_keys_NoDup (l : list A) : NoDup (sorted_keys eqb leb l).
Proof.
  unfold sorted_keys. eapply Permutation_NoDup.
  - symmetry. apply sort_Permutation.
  - apply unique_NoDup.
Qed.
End OrderingFacts.

Lemma NoDup_list_prod {A B : Type} (l : list A) (l' : list B) :
  NoDup l -> NoDup l' -> NoDup (list_prod l l').
Proof.
  intros N N'. induction N as [|x l Hx N IH]; simpl; [constructor|].
  apply NoDup_app; trivial.
  - clear -N'. induction N' as [|y l' Hy N' IH']; simpl; constructor; trivial.
    rewrite in_map_iff. intros (z & E & Hz). congruence.
  - intros [a b]. rewrite in_map_iff, in_prod_iff.
    intros (z & E & _) [Ha _]. congruence.
Qed.

Lemma labels_NoDup : NoDup labels.
Proof.
  unfold labels.
  repeat (constructor; [simpl; intuition discriminate|]). constructor.
Qed.

Lemma labels_all (g : AgeGroup) : In g labels.
Proof. destruct g; simpl; auto 6. Qed.

Lemma group_keys_NoDup (observed : bool) (key : Row -> string) (d : list Row) :
  NoDup (group_keys observed key d).
Proof.
  unfold group_keys.
  assert (N : NoDup (list_prod labels
                (sorted_keys String.eqb String.leb
                   (map key (filter (fun r : Row => notna (Age_Group r)) d))))).
  { apply NoDup_list_prod; [apply labels_NoDup|].
    apply sorted_keys_NoDup, String.eqb_eq. }
  destruct observed; trivial. now apply NoDup_filter.
Qed.

Lemma in_group_eq (g : AgeGroup) (r : Row) :
  in_group g r = true <-> Age_Group r = Some g.
Proof.
  unfold in_group. rewrite isin_group_In. split.
  - intros (g' & E & [->|[]]). exact E.
  - intros E. exists g. split; simpl; auto.
Qed.

Lemma group_rows_In (key : Row -> string) (g : AgeGroup) (k : string)
    (d : list Row) (r : Row) :
  In r (group_rows key g k d) <-> In r d /\ Age_Group r = Some g /\ key r = k.
Proof.
  unfold group_rows.
  now rewrite filter_In, andb_true_iff, in_group_eq, String.eqb_eq.
Qed.

(** A pair is a group key when it has rows; when unobserved categories
    are kept, every pair of a category and a value in the frame is. *)
Lemma group_keys_In (observed : bool) (key : Row -> string) (d : list Row)
    (g : AgeGroup) (k : string) :
  In (g, k) (group_keys observed key d)
  <-> (exists r, In r d /\ Age_Group r <> None /\ key r = k)
      /\ (observed = true -> group_rows key g k d <> []).
Proof.
  unfold group_keys.
  assert (P : In (g, k) (list_prod labels
                (sorted_keys String.eqb String.leb
                   (map key (filter (fun r : Row => notna (Age_Group r)) d))))
              <-> exists r, In r d /\ Age_Group r <> None /\ key r = k).
  { rewrite in_prod_iff, (sorted_keys_In _ String.eqb_eq), in_map_iff.
    split.
    - intros (_ & r & E & Hr). apply filter_In in Hr. destruct Hr as [Hr Hn].
      exists r. repeat split; trivial. destruct (Age_Group r); easy.
    - intros (r & Hr & Hn & E). split; [apply labels_all|].
      exists r. split; trivial. apply filter_In. split; trivial.
      destruct (Age_Group r); easy. }
  destruct observed.
  - rewrite filter_In, P. simpl.
    destruct (group_rows key g k d); simpl; intuition congruence.
  - rewrite P. intuition congruence.
Qed.

(** ** Chart 5: one cohort or two *)

(** C2.  When two rows of the filtered table differ in the sex flag,
    chart 5 computes two correlation vectors, one from the rows with
    flag 1 only and one from the rows with flag 0 only; when all rows
    agree on the flag it computes one vector from the whole table; a
    table of men only gives exactly one vector. *)
Theorem cohort_split (clip : bool) (d : list Row) :
  ((exists r1 r2 : Row, In r1 d /\ In r2 d /\ Sex_Male r1 <> Sex_Male r2) ->
   fig5 clip d
   = Scatterpolar2 (abs_corr clip (filter (fun r : Row => Sex_Male r =? 1) d))
                   (abs_corr clip (filter (fun r : Row => Sex_Male r =? 0) d)))
  /\ ((forall r1 r2 : Row, In r1 d -> In r2 d -> Sex_Male r1 = Sex_Male r2) ->
      fig5 clip d = BarPolar (abs_corr clip d))
  /\ ((forall r : Row, In r d -> Sex_Male r = 1) ->
      vectors (fig5 clip d) = [abs_corr clip d]).
Proof.
  assert (U := unique_two Z.eqb Z.eqb_eq (map (fun r : Row => Sex_Male r) d)).
  assert (One : (forall r1 r2 : Row, In r1 d -> In r2 d -> Sex_Male r1 = Sex_Male r2) ->
                fig5 clip d = BarPolar (abs_corr clip d)).
  { intros Same. unfold fig5, nunique_sex.
    destruct (Nat.ltb_spec 1
                (List.length (unique Z.eqb (map (fun r : Row => Sex_Male r) d))))
      as [Hlt|_]; trivial.
    apply U in Hlt. destruct Hlt as (x & y & Hx & Hy & N).
    apply in_map_iff in Hx, Hy.
    destruct Hx as (r1 & <- & H1), Hy as (r2 & <- & H2).
    exfalso. apply N. now apply Same. }
  split; [|split; trivial].
  - intros (r1 & r2 & H1 & H2 & N). unfold fig5, nunique_sex.
    destruct (Nat.ltb_spec 1
                (List.length (unique Z.eqb (map (fun r : Row => Sex_Male r) d))))
      as [_|Hle]; trivial.
    exfalso. apply (proj1 (Nat.le_ngt _ _) Hle). apply U.
    exists (Sex_Male r1), (Sex_Male r2).
    repeat split; trivial; apply in_map_iff; eauto.
  - intros Men. rewrite One; trivial.
    intros r1 r2 H1 H2. now rewrite (Men r1 H1), (Men r2 H2).
Qed.

Lemma cohort_split_witness :
  fig5 true sample_d
  = Scatterpolar2 (abs_corr true (filter (fun r : Row => Sex_Male r =? 1) sample_d))
                  (abs_corr true (filter (fun r : Row => Sex_Male r =? 0) sample_d))
  /\ fig5 true sample_men = BarPolar (abs_corr true sample_men)
  /\ vectors (fig5 true sample_men) = [abs_corr true sample_men].
Proof.
  split; [|split].
  - apply (proj1 (cohort_split true sample_d)).
    exists (mkRow p45 (Some G41_50)), (mkRow p58 (Some G51_60)).
    simpl. repeat split; auto. discriminate.
  - apply (proj1 (proj2 (cohort_split true sample_men))).
    intros r1 r2 H1 H2. simpl in H1, H2.
    repeat (destruct H1 as [<-|H1]); try contradiction;
      repeat (destruct H2 as [<-|H2]); try contradiction; reflexivity.
  - apply (proj2 (proj2 (cohort_split true sample_men))).
    intros r H. simpl in H.
    repeat (destruct H as [<-|H]); try contradiction; reflexivity.
Defined.

(** ** Zero-row input *)

(** C3.  With the chest pain multiselect empty the filtered table has
    no row, and on a table without rows each of the six charts gets its
    summary without any error: five empty tables, and for chart 5 the
    single vector of six undefined correlations. *)
Theorem empty_selection (observed clip : bool) (c : FilterCriteria) (df : list Row) :
  (cp c = [] -> apply_filters c df = [])
  /\ mos observed [] = []
  /\ df_e [] = []
  /\ heat observed [] = Ok (mkPivot [] [] [])
  /\ df4 [] = []
  /\ fig5 clip [] = BarPolar (map (fun c => (fst c, None)) cols)
  /\ ln observed [] = [].
Proof.
  split.
  - intros E. rewrite apply_filters_mask.
    induction df as [|r df IH]; simpl; trivial.
    unfold mask at 1. rewrite E. simpl. exact IH.
  - destruct observed, clip; repeat split; reflexivity.
Qed.

Lemma empty_selection_witness :
  apply_filters sample_none sample_df = []
  /\ mos false (apply_filters sample_none sample_df) = []
  /\ df_e (apply_filters sample_none sample_df) = []
  /\ heat false (apply_filters sample_none sample_df) = Ok (mkPivot [] [] [])
  /\ df4 (apply_filters sample_none sample_df) = []
  /\ fig5 false (apply_filters sample_none sample_df)
     = BarPolar (map (fun c => (fst c, None)) cols)
  /\ ln false (apply_filters sample_none sample_df) = [].
Proof.
  destruct (empty_selection false false sample_none sample_df)
    as (F & A1 & A2 & A3 & A4 & A5 & A6).
  rewrite (F eq_refl). repeat split; assumption.
Defined.

(** ** Means of the outcome *)

Lemma qsum_inject (l : list Z) : (qsum (map inject_Z l) == inject_Z (zsum l))%Q.
Proof.
  induction l as [|x l IH]; simpl; [reflexivity|].
  rewrite IH, inject_Z_plus. reflexivity.
Qed.

Lemma size_cons {A : Type} (x : A) (l : list A) : size (x :: l) = size l + 1.
Proof. unfold size. simpl List.length. lia. Qed.

Lemma size_nonneg {A : Type} (l : list A) : 0 <= size l.
Proof. unfold size. lia. Qed.

Lemma zsum_outcome_bounds (rows : list Row) :
  binary_outcome rows ->
  0 <= zsum (map (fun r : Row => heart_disease r) rows) <= size rows.
Proof.
  induction rows as [|r rows IH]; intros B.
  - unfold size. simpl. lia.
  - rewrite size_cons. simpl.
    assert (B' : binary_outcome rows) by (intros x Hx; apply B; now right).
    specialize (IH B'). destruct (B r (or_introl eq_refl)); lia.
Qed.

(** The mean of a 0/1 column over at least one row is a fraction. *)
Lemma disease_mean_fraction (rows : list Row) :
  rows <> [] -> binary_outcome rows ->
  exists q, disease_mean rows = Some q /\ (0 <= q <= 1)%Q.
Proof.
  intros NE B. pose proof (zsum_outcome_bounds rows B) as [Hlo Hhi].
  destruct rows as [|r rows]; [contradiction|].
  unfold disease_mean, qmean.
  set (col := map (fun r0 : Row => inject_Z (heart_disease r0)) (r :: rows)).
  cbn [map] in col.
  assert (Es : size col = size (r :: rows)).
  { unfold size, col. simpl List.length. now rewrite length_map. }
  assert (Eq : (qsum col == inject_Z (zsum (map (fun r0 : Row => heart_disease r0) (r :: rows))))%Q).
  { unfold col. rewrite <- qsum_inject. simpl. rewrite map_map. reflexivity. }
  subst col. eexists. split; [reflexivity|].
  rewrite Eq, Es.
  assert (Hpos : (0 < inject_Z (size (r :: rows)))%Q).
  { rewrite size_cons. pose proof (size_nonneg rows).
    change 0%Q with (inject_Z 0). rewrite <- Zlt_Qlt. lia. }
  split.
  - apply Qle_shift_div_l; trivial. rewrite Qmult_0_l.
    change 0%Q with (inject_Z 0). now rewrite <- Zle_Qle.
  - apply Qle_shift_div_r; trivial. rewrite Qmult_1_l. now rewrite <- Zle_Qle.
Qed.

Lemma disease_mean_None (rows : list Row) :
  disease_mean rows = None <-> rows = [].
Proof. destruct rows; simpl; split; intros; trivial; discriminate. Qed.

Lemma binary_outcome_filter (f : Row -> bool) (d : list Row) :
  binary_outcome d -> binary_outcome (filter f d).
Proof. intros B r Hr. apply filter_In in Hr. now apply B. Qed.

Lemma rt_percent (d : list Row) (k : string) (v : option Q) :
  binary_outcome d -> In (k, v) (rt d) ->
  exists q, v = Some q /\ (0 <= q <= 100)%Q.
Proof.
  intros B H. unfold rt in H. apply in_map_iff in H.
  destruct H as (k' & E & Hk). injection E as -> <-.
  apply (sorted_keys_In _ String.eqb_eq) in Hk. apply in_map_iff in Hk.
  destruct Hk as (r & Er & Hr).
  destruct (disease_mean_fraction
              (filter (fun r0 : Row => String.eqb (resting_ecg r0) k) d))
    as (q & Eq & Hq).
  - intros E0. assert (Hin : In r (filter (fun r0 : Row => String.eqb (resting_ecg r0) k) d)).
    { apply filter_In. split; trivial. apply String.eqb_eq. exact Er. }
    rewrite E0 in Hin. contradiction.
  - now apply binary_outcome_filter.
  - rewrite Eq. simpl. eexists. split; [reflexivity|]. Lqa.lra.
Qed.




(** ** Chart 3: the pivot *)

Lemma pair_eqb_eq (a b : AgeGroup * string) : pair_eqb a b = true <-> a = b.
Proof.
  destruct a as [g s], b as [g' s']. unfold pair_eqb. simpl.
  rewrite andb_true_iff, AgeGroup_eqb_eq, String.eqb_eq.
  split; [intros [-> ->]; reflexivity | intros E; injection E; auto].
Qed.

Section Lookup.
Context {A : Type}.
Variable eqb : A -> A -> bool.
Hypothesis eqb_eq : forall x y, eqb x y = true <-> x = y.

Lemma index_of_Some (x : A) (l : list A) (i : nat) :
  index_of eqb x l = Some i ->
  (i < List.length l)%nat /\ forall d, nth i l d = x.
Proof.
  revert i. induction l as [|y l IH]; simpl; intros i E; [discriminate|].
  destruct (eqb x y) eqn:Exy.
  - injection E as <-. apply eqb_eq in Exy. split; [lia | intros; now subst].
  - destruct (index_of eqb x l) as [j|]; [|discriminate].
    injection E as <-. destruct (IH j eq_refl) as [Hj Hn].
    split; [lia | exact Hn].
Qed.

Lemma index_of_None (x : A) (l : list A) :
  index_of eqb x l = None -> ~ In x l.
Proof.
  induction l as [|y l IH]; simpl; intros E; [tauto|].
  destruct (eqb x y) eqn:Exy; [discriminate|].
  destruct (index_of eqb x l); [discriminate|].
  intros [->|H]; [|now apply IH].
  assert (eqb x x = true) by now apply eqb_eq. congruence.
Qed.
End Lookup.

Lemma nth_map_lt {A B : Type} (f : A -> B) (l : list A) (i : nat) (d : A) (d' : B) :
  (i < List.length l)%nat -> nth i (map f l) d' = f (nth i l d).
Proof.
  intros H. rewrite (nth_indep (map f l) d' (f d)) by now rewrite length_map.
  apply map_nth.
Qed.

(** Looking a key up in a long frame that was built from its keys. *)
Lemma long_value_keys (f : AgeGroup * string -> option Q)
    (keys : list (AgeGroup * string)) (g : AgeGroup) (s : string) :
  long_value (map (fun gk => (gk, f gk)) keys) g s
  = if existsb (pair_eqb (g, s)) keys then f (g, s) else None.
Proof.
  unfold long_value. induction keys as [|k keys IH]; simpl; trivial.
  destruct (pair_eqb k (g, s)) eqn:E.
  - apply pair_eqb_eq in E. subst k.
    assert (pair_eqb (g, s) (g, s) = true) as -> by now apply pair_eqb_eq.
    reflexivity.
  - assert (pair_eqb (g, s) k = false) as ->.
    { destruct (pair_eqb (g, s) k) eqn:E'; trivial.
      apply pair_eqb_eq in E'. subst k.
      assert (pair_eqb (g, s) (g, s) = true) by now apply pair_eqb_eq. congruence. }
    exact IH.
Qed.

(** The long frame of chart 3 holds, for every pair, the mean outcome
    of the pair's rows, NaN when there is none. *)
Lemma long_value_slope (observed : bool) (d : list Row) (g : AgeGroup) (s : string) :
  long_value (slope_means observed d) g s
  = disease_mean (group_rows st_slope g s d).
Proof.
  unfold slope_means.
  rewrite (long_value_keys
             (fun gk => disease_mean (group_rows st_slope (fst gk) (snd gk) d))).
  simpl. destruct (existsb (pair_eqb (g, s)) (group_keys observed st_slope d)) eqn:E;
    trivial.
  symmetry. apply disease_mean_None.
  destruct (group_rows st_slope g s d) as [|r rows] eqn:Eg; trivial.
  exfalso.
  assert (Hr : In r (group_rows st_slope g s d)) by (rewrite Eg; now left).
  apply group_rows_In in Hr. destruct Hr as (Hr & Hg & Hs).
  assert (K : In (g, s) (group_keys observed st_slope d)).
  { apply group_keys_In. split.
    - exists r. repeat split; trivial. congruence.
    - intros _. rewrite Eg. discriminate. }
  assert (T : existsb (pair_eqb (g, s)) (group_keys observed st_slope d) = true).
  { apply existsb_exists. exists (g, s). split; trivial. now apply pair_eqb_eq. }
  congruence.
Qed.

Lemma slope_keys (observed : bool) (d : list Row) :
  map fst (slope_means observed d) = group_keys observed st_slope d.
Proof.
  unfold slope_means. rewrite map_map. simpl. apply map_id.
Qed.

(** The table of chart 3 in terms of the group-by: the pivot does not
    raise, the table is rectangular, and its entry at a pair is the
    scaled mean of the pair's group. *)
Lemma heat_table (observed : bool) (d : list Row) :
  exists p, heat observed d = Ok p
    /\ List.length (pv_values p) = List.length (pv_index p)
    /\ Forall (fun line => List.length line = List.length (pv_columns p)) (pv_values p)
    /\ forall g s,
         cell p g s = times100 (disease_mean (group_rows st_slope g s d))
         /\ (group_rows st_slope g s d = [] <-> cell p g s = None).
Proof.
  unfold heat, pivot. rewrite slope_keys.
  rewrite (has_duplicates_false pair_eqb pair_eqb_eq)
    by apply group_keys_NoDup.
  eexists. split; [reflexivity|]. cbn [pv_index pv_columns pv_values].
  split; [now rewrite !length_map|].
  split.
  { apply Forall_forall. intros line Hl.
    apply in_map_iff in Hl. destruct Hl as (line' & <- & Hl).
    apply in_map_iff in Hl. destruct Hl as (g & <- & _).
    now rewrite !length_map. }
  intros g s.
  match goal with
  | |- ?lhs = ?rhs /\ _ => assert (C : lhs = rhs)
  end.
  { unfold cell. cbn [pv_index pv_columns pv_values].
    set (index := filter _ labels).
    set (columns := sorted_keys String.eqb String.leb _).
    destruct (index_of AgeGroup_eqb g index) as [i|] eqn:Ei;
      [destruct (index_of String.eqb s columns) as [j|] eqn:Ej|].
    - apply (index_of_Some _ AgeGroup_eqb_eq) in Ei. destruct Ei as [Hi Ni].
      apply (index_of_Some _ String.eqb_eq) in Ej. destruct Ej as [Hj Nj].
      rewrite map_map.
      rewrite (nth_map_lt _ index i g []) by exact Hi.
      rewrite map_map.
      rewrite (nth_map_lt _ columns j s None) by exact Hj.
      now rewrite Ni, Nj, long_value_slope.
    - apply (index_of_None _ String.eqb_eq) in Ej.
      destruct (group_rows st_slope g s d) as [|r rows] eqn:Eg; trivial.
      exfalso. apply Ej. unfold columns.
      apply (sorted_keys_In _ String.eqb_eq). apply in_map_iff.
      exists (g, s). split; trivial.
      assert (Hr : In r (group_rows st_slope g s d)) by (rewrite Eg; now left).
      apply group_rows_In in Hr. destruct Hr as (Hr & Hg & Hs).
      apply group_keys_In. split.
      + exists r. repeat split; trivial. congruence.
      + intros _. rewrite Eg. discriminate.
    - apply (index_of_None _ AgeGroup_eqb_eq) in Ei.
      destruct (group_rows st_slope g s d) as [|r rows] eqn:Eg; trivial.
      exfalso. apply Ei. unfold index. apply filter_In. split; [apply labels_all|].
      apply existsb_exists. exists (g, s). split; [|apply AgeGroup_eqb_refl].
      assert (Hr : In r (group_rows st_slope g s d)) by (rewrite Eg; now left).
      apply group_rows_In in Hr. destruct Hr as (Hr & Hg & Hs).
      apply group_keys_In. split.
      + exists r. repeat split; trivial. congruence.
      + intros _. rewrite Eg. discriminate. }
  split; [exact C|]. rewrite C.
  destruct (group_rows st_slope g s d); simpl; split; intros; trivial; discriminate.
Qed.

(** A group of the group-by holds the rows that any test for the group's
    age group and key value selects. *)
Lemma in_group_key (key : Row -> string) (g : AgeGroup) (k : string) (r : Row) :
  in_group g r && String.eqb (key r) k = true <-> Age_Group r = Some g /\ key r = k.
Proof. now rewrite andb_true_iff, in_group_eq, String.eqb_eq. Qed.

Lemma group_rows_filter (key : Row -> string) (g : AgeGroup) (k : string)
    (d : list Row) (sel : Row -> bool) :
  (forall r : Row, sel r = true <-> Age_Group r = Some g /\ key r = k) ->
  group_rows key g k d = filter sel d.
Proof.
  intros H. unfold group_rows. apply filter_ext. intros r.
  apply eq_true_iff_eq. rewrite H. apply in_group_key.
Qed.

(** The mean of the outcome column, written out: the sum of the column
    over the number of rows. *)
Lemma disease_mean_value (r : Row) (rows : list Row) :
  exists q, disease_mean (r :: rows) = Some q
    /\ (q == inject_Z (fold_right Z.add 0%Z
                         (map (fun r0 : Row => heart_disease r0) (r :: rows)))
             / inject_Z (Z.of_nat (List.length (r :: rows))))%Q.
Proof.
  unfold disease_mean, qmean. cbn [map]. eexists. split; [reflexivity|].
  change (inject_Z (heart_disease r)
          :: map (fun r0 : Row => inject_Z (heart_disease r0)) rows)
    with (map (fun r0 : Row => inject_Z (heart_disease r0)) (r :: rows)).
  rewrite <- (map_map (fun r0 : Row => heart_disease r0) inject_Z).
  rewrite qsum_inject. unfold size, zsum. now rewrite !length_map.
Qed.

(** C6.  Chart 3 gets a two-dimensional table, one line per age group
    of its index and one entry per ST slope of its columns, that the
    pivot builds without error.  Take the filtered rows of age group g
    with slope s: when there are such rows, the entry at (g, s) is the
    sum of their 0/1 outcome divided by their number, times 100; when
    there is none, the entry is empty (NaN), never a zero. *)
Theorem heat_cells (observed : bool) (d : list Row) :
  exists p, heat observed d = Ok p
    /\ List.length (pv_values p) = List.length (pv_index p)
    /\ Forall (fun line => List.length line = List.length (pv_columns p)) (pv_values p)
    /\ forall (g : AgeGroup) (s : string) (sel : Row -> bool),
         (forall r : Row, sel r = true <-> Age_Group r = Some g /\ st_slope r = s) ->
         match cell p g s with
         | Some v =>
             filter sel d <> []
             /\ (v == inject_Z (fold_right Z.add 0%Z
                                  (map (fun r : Row => heart_disease r) (filter sel d)))
                      / inject_Z (Z.of_nat (List.length (filter sel d)))
                      * 100)%Q
         | None => filter sel d = []
         end.
Proof.
  destruct (heat_table observed d) as (p & E & L & W & C).
  exists p. split; [exact E|]. split; [exact L|]. split; [exact W|].
  intros g s sel Hsel. destruct (C g s) as [Ec _]. rewrite Ec.
  rewrite (group_rows_filter st_slope g s d sel Hsel).
  destruct (filter sel d) as [|r rows]; [reflexivity|].
  destruct (disease_mean_value r rows) as (q & Eq & Hq).
  rewrite Eq. cbn [times100 option_map]. split; [discriminate|].
  now rewrite Hq.
Qed.

(** On the sample table: of the two patients aged 41 to 50, the one
    with a flat slope has the disease and the one with a rising slope
    has not, which gives a true zero; nobody aged 51 to 60 has a rising
    slope, which gives an empty entry. *)
Lemma heat_cells_witness :
  exists p, heat true sample_d = Ok p
    /\ match cell p G41_50 "Flat" with
       | Some v => (v == 100)%Q
       | None => False
       end
    /\ match cell p G41_50 "Up" with
       | Some v => (v == 0)%Q
       | None => False
       end
    /\ cell p G51_60 "Up" = None.
Proof.
  destruct (heat_cells true sample_d) as (p & E & _ & _ & C).
  exists p. split; [exact E|].
  pose proof (C G41_50 "Flat" _ (in_group_key st_slope G41_50 "Flat")) as C1.
  pose proof (C G41_50 "Up" _ (in_group_key st_slope G41_50 "Up")) as C2.
  pose proof (C G51_60 "Up" _ (in_group_key st_slope G51_60 "Up")) as C3.
  split; [|split].
  - destruct (cell p G41_50 "Flat") as [v|].
    + destruct C1 as [_ ->]. reflexivity.
    + discriminate C1.
  - destruct (cell p G41_50 "Up") as [v|].
    + destruct C2 as [_ ->]. reflexivity.
    + discriminate C2.
  - destruct (cell p G51_60 "Up") as [v|]; trivial.
    destruct C3 as [N _]. exfalso. now apply N.
Defined.

(** ** Chart 1: counts and shares *)

Lemma zsum_map_add {A : Type} (a b : A -> Z) (l : list A) :
  zsum (map (fun x => a x + b x) l) = zsum (map a l) + zsum (map b l).
Proof. induction l as [|x l IH]; simpl; lia. Qed.

Lemma zsum_map_zero {A : Type} (b : A -> Z) (l : list A) :
  (forall x, In x l -> b x = 0) -> zsum (map b l) = 0.
Proof.
  induction l as [|x l IH]; simpl; intros H; trivial.
  rewrite (H x) by now left. rewrite IH; [reflexivity|]. intros y Hy. apply H. now right.
Qed.

(** Over keys without repetition, the indicator of one of them sums
    to one. *)
Lemma zsum_indicator {A : Type} (b : A -> bool) (k0 : A) (l : list A) :
  NoDup l -> In k0 l -> (forall k, In k l -> (b k = true <-> k = k0)) ->
  zsum (map (fun k => if b k then 1 else 0) l) = 1.
Proof.
  induction 1 as [|x l Hx N IH]; simpl; intros Hin Hb; [contradiction|].
  destruct (b x) eqn:Ex.
  - apply (Hb x (or_introl eq_refl)) in Ex. subst x.
    rewrite (zsum_map_zero (fun k => if b k then 1 else 0)); [reflexivity|].
    intros y Hy. destruct (b y) eqn:Ey; trivial.
    apply (Hb y (or_intror Hy)) in Ey. subst y. contradiction.
  - destruct Hin as [->|Hin].
    + assert (b k0 = true) by now apply (Hb k0 (or_introl eq_refl)). congruence.
    + rewrite IH; trivial. intros k Hk. apply Hb. now right.
Qed.

(** The group sizes of one age group add up to the number of rows of
    that age group, whenever the keys do not repeat and cover the rows. *)
Lemma group_sizes_total (key : Row -> string) (g : AgeGroup)
    (keys : list (AgeGroup * string)) (d : list Row) :
  NoDup keys ->
  (forall gk, In gk keys -> fst gk = g) ->
  (forall r : Row, In r d -> Age_Group r = Some g -> In (g, key r) keys) ->
  zsum (map (fun gk => size (group_rows key (fst gk) (snd gk) d)) keys)
  = size (filter (in_group g) d).
Proof.
  intros N Hg. induction d as [|r d IH]; intros Cov.
  - simpl. apply zsum_map_zero. reflexivity.
  - assert (Cov' : forall r0 : Row, In r0 d -> Age_Group r0 = Some g -> In (g, key r0) keys).
    { intros r0 H0. apply Cov. now right. }
    specialize (IH Cov').
    rewrite (map_ext_in _
               (fun gk => size (group_rows key (fst gk) (snd gk) d)
                          + (if in_group g r && String.eqb (key r) (snd gk) then 1 else 0))).
    2:{ intros gk Hk. rewrite (Hg gk Hk). unfold group_rows. simpl.
        destruct (in_group g r && String.eqb (key r) (snd gk)).
        - apply size_cons.
        - lia. }
    rewrite zsum_map_add, IH. simpl.
    destruct (in_group g r) eqn:Er.
    + rewrite size_cons. f_equal. simpl.
      apply (zsum_indicator (fun gk => String.eqb (key r) (snd gk)) (g, key r));
        trivial.
      * apply Cov; [now left | now apply in_group_eq].
      * intros [g' k] Hk. specialize (Hg _ Hk). simpl in Hg. subst g'. simpl.
        rewrite String.eqb_eq. split; [intros ->; reflexivity | intros E; now injection E].
    + simpl. rewrite zsum_map_zero; [lia | reflexivity].
Qed.

Lemma qsum_shares (n : Z) (l : list Z) :
  n <> 0 ->
  (qsum (map (fun c => inject_Z c / inject_Z n) l) == inject_Z (zsum l) / inject_Z n)%Q.
Proof.
  intros Hn.
  assert (Hq : ~ (inject_Z n == 0)%Q).
  { change 0%Q with (inject_Z 0). rewrite inject_Z_injective. exact Hn. }
  induction l as [|c l IH]; simpl.
  - field. exact Hq.
  - rewrite IH, inject_Z_plus. field. exact Hq.
Qed.

(** Chart 1 row by row: each key with its count and the count over the
    total of the counts of its age group. *)
Lemma mos_rows (observed : bool) (d : list Row) :
  mos observed d
  = map (fun gk =>
           let count := size (group_rows chest_pain_type (fst gk) (snd gk) d) in
           mkMos (fst gk) (snd gk) count
             (true_div count
                (zsum (map (fun gk' => size (group_rows chest_pain_type (fst gk') (snd gk') d))
                         (filter (fun gk' => AgeGroup_eqb (fst gk') (fst gk))
                                 (group_keys observed chest_pain_type d))))))
        (group_keys observed chest_pain_type d).
Proof.
  unfold mos, transform_sum, mos_counts.
  rewrite combine_map_r, !map_map. apply map_ext. intros gk. simpl.
  rewrite filter_map_swap, map_map. reflexivity.
Qed.

Lemma group_total (observed : bool) (d : list Row) (g : AgeGroup) :
  zsum (map (fun gk => size (group_rows chest_pain_type (fst gk) (snd gk) d))
          (filter (fun gk => AgeGroup_eqb (fst gk) g)
                  (group_keys observed chest_pain_type d)))
  = size (filter (in_group g) d).
Proof.
  apply group_sizes_total.
  - apply NoDup_filter, group_keys_NoDup.
  - intros gk H. apply filter_In in H. now apply AgeGroup_eqb_eq.
  - intros r Hr Hg. apply filter_In. split; [|apply AgeGroup_eqb_refl].
    apply group_keys_In. split.
    + exists r. repeat split; trivial. congruence.
    + intros _ E.
      assert (H : In r (group_rows chest_pain_type g (chest_pain_type r) d)).
      { apply group_rows_In. auto. }
      rewrite E in H. contradiction.
Qed.



(** ** Chart 5: the coefficient in binary64 *)

Lemma SFsub_diag_finite (s : bool) (m : positive) (e : Z) :
  SF64sub (S754_finite s m e) (S754_finite s m e) = S754_zero false.
Proof.
  unfold SF64sub, SFsub. cbv zeta. rewrite Z.min_id.
  unfold shl_align. rewrite (Z.sub_diag e). cbn [fst].
  rewrite (Z.sub_diag (cond_Zopp s (Z.pos m))). reflexivity.
Qed.

Lemma SFmul_zero_r (t z : spec_float) : sf_zero z -> sf_zero_or_nan (SF64mul t z).
Proof. destruct z; try contradiction. intros _. destruct t; exact I. Qed.

Lemma SFmul_zero_l (t z : spec_float) : sf_zero z -> sf_zero_or_nan (SF64mul z t).
Proof. destruct z; try contradiction. intros _. destruct t; exact I. Qed.

Lemma SFmul_blank_l (x y : spec_float) :
  sf_zero_or_nan x -> sf_zero_or_nan (SF64mul x y).
Proof.
  destruct x; try contradiction; intros _.
  - apply SFmul_zero_l. exact I.
  - exact I.
Qed.

Lemma SFmul_blank_r (x y : spec_float) :
  sf_zero_or_nan y -> sf_zero_or_nan (SF64mul x y).
Proof.
  destruct y; try contradiction; intros _.
  - apply SFmul_zero_r. exact I.
  - destruct x; exact I.
Qed.

(** Moving the mean by a zero keeps the value at no distance from it. *)
Lemma flat_keep (c m z : spec_float) :
  sf_zero (SF64sub c m) -> sf_zero z -> sf_zero (SF64sub c (SF64add m z)).
Proof.
  intros H Hz. destruct z as [sz| | |]; try contradiction.
  destruct m as [sm|sm| |sm mm em].
  - destruct c as [sc|sc| |sc mc ec]; try contradiction.
    destruct sm, sz, sc; exact I.
  - destruct c as [sc|sc| |sc mc ec], sm; try destruct sc; contradiction.
  - destruct c; contradiction.
  - exact H.
Qed.

(** One more row with the same value, whatever the weight [t] of the
    row is. *)
Lemma flat_step (c t mean ssq : spec_float) :
  flat c mean ssq ->
  let d := SF64sub c mean in
  let mean' := SF64add mean (SF64mul t d) in
  flat c mean' (SF64add ssq (SF64mul (SF64sub c mean') d)).
Proof.
  intros [[Hd Hs]|Hn] d mean'.
  - pose proof (SFmul_zero_r t d Hd) as Hu. fold d in Hd.
    destruct (SF64mul t d) as [su| | |] eqn:Eu; try contradiction.
    + left. assert (K : sf_zero (SF64sub c mean')).
      { unfold mean'. apply flat_keep; [exact Hd | exact I]. }
      split; trivial.
      destruct (SF64sub c mean'); try contradiction.
      destruct d; try contradiction. destruct ssq; try contradiction.
      simpl. destruct s1, (xorb s s0); exact I.
    + right. unfold mean'.
      destruct mean, c, ssq, d; reflexivity.
  - right. subst ssq. reflexivity.
Qed.

Lemma digits_shift (m k : positive) :
  Z.pos (digits2_pos (Pos.iter xO m k)) = Z.pos (digits2_pos m) + Z.pos k.
Proof.
  induction k as [|k IH] using Pos.peano_ind.
  - simpl. lia.
  - rewrite Pos.iter_succ. cbn [digits2_pos]. lia.
Qed.

Lemma shr_shift (m k : positive) :
  SpecFloat.iter_pos shr_1 k (Build_shr_record (Z.pos (Pos.iter xO m k)) false false)
  = Build_shr_record (Z.pos m) false false.
Proof.
  assert (E : forall (A : Type) (f : A -> A) k x,
             SpecFloat.iter_pos f k x = Pos.iter f x k).
  { intros A f k0. induction k0; intros x; simpl;
      rewrite ?IHk0, ?Pos.iter_swap; reflexivity. }
  rewrite E. induction k as [|k IH] using Pos.peano_ind.
  - reflexivity.
  - rewrite Pos.iter_succ_r, Pos.iter_succ. cbn [shr_1 orb]. exact IH.
Qed.

(** 1.0 times a binary64 number is that number. *)
Lemma SFmul_one_l (s : bool) (m : positive) (e : Z) :
  bounded prec emax m e = true ->
  SF64mul sf_one (S754_finite s m e) = S754_finite s m e.
Proof.
  intros B. unfold bounded, canonical_mantissa in B.
  apply andb_true_iff in B. destruct B as [C L]. apply Z.eqb_eq in C.
  unfold sf_one, SF64mul, SFmul. cbn [xorb].
  change (Pos.mul 4503599627370496 m) with (Pos.iter xO m 52).
  unfold binary_round_aux, shr_fexp.
  cbn [Zdigits2 shr_record_of_loc]. rewrite digits_shift.
  replace (Z.pos (digits2_pos m) + 52 + (-52 + e))
    with (Z.pos (digits2_pos m) + e) by lia.
  rewrite C. replace (e - (-52 + e)) with 52 by lia.
  cbn [shr]. rewrite shr_shift.
  replace (-52 + e + 52) with e by lia.
  cbn [shr_m loc_of_shr_record round_nearest_even Zdigits2].
  rewrite C, (Z.sub_diag e). cbn [shr shr_m]. rewrite L. reflexivity.
Qed.

(** The first row of a column: the mean becomes the value itself and
    no spread is recorded. *)
Lemma flat_first (c : spec_float) :
  valid_binary c = true ->
  let d := SF64sub c (S754_zero false) in
  let mean' := SF64add (S754_zero false) (SF64mul sf_one d) in
  flat c mean' (SF64add (S754_zero false) (SF64mul (SF64sub c mean') d)).
Proof.
  intros V d mean'. destruct c as [s|s| |s m e].
  - left. destruct s; split; exact I.
  - right. destruct s; reflexivity.
  - right. reflexivity.
  - assert (Ed : d = S754_finite s m e) by reflexivity.
    assert (Em : mean' = S754_finite s m e).
    { unfold mean'. rewrite Ed, SFmul_one_l by exact V. reflexivity. }
    unfold flat. rewrite Em, Ed, !SFsub_diag_finite. left. split; [exact I|].
    destruct s; exact I.
Qed.

Lemma flat_x_step (c : float) (st : Welford) (vy : float) :
  flat_x c st -> flat_x c (welford_step st c vy).
Proof.
  intros H. unfold welford_step.
  destruct (is_finite c && is_finite vy); [|exact H].
  right. cbn [meanx ssqdm_x].
  rewrite !add_spec, !mul_spec, !FloatAxioms.sub_spec,
          !add_spec, !mul_spec, !FloatAxioms.sub_spec.
  destruct H as [->|H].
  - cbn [nobs meanx ssqdm_x welford_init].
    change (Prim2SF (1 / Z2float (0 + 1))) with sf_one.
    exact (flat_first (Prim2SF c) (Prim2SF_valid c)).
  - exact (flat_step (Prim2SF c) (Prim2SF (1 / Z2float (nobs st + 1))) _ _ H).
Qed.

Lemma flat_y_step (c : float) (st : Welford) (vx : float) :
  flat_y c st -> flat_y c (welford_step st vx c).
Proof.
  intros H. unfold welford_step.
  destruct (is_finite vx && is_finite c); [|exact H].
  right. cbn [meany ssqdm_y].
  rewrite !add_spec, !mul_spec, !FloatAxioms.sub_spec,
          !add_spec, !mul_spec, !FloatAxioms.sub_spec.
  destruct H as [->|H].
  - cbn [nobs meany ssqdm_y welford_init].
    change (Prim2SF (1 / Z2float (0 + 1))) with sf_one.
    exact (flat_first (Prim2SF c) (Prim2SF_valid c)).
  - exact (flat_step (Prim2SF c) (Prim2SF (1 / Z2float (nobs st + 1))) _ _ H).
Qed.

Lemma welford_flat_x (c : float) (l : list (float * float)) (st : Welford) :
  (forall xy, In xy l -> fst xy = c) -> flat_x c st ->
  flat_x c (fold_left (fun st xy => welford_step st (fst xy) (snd xy)) l st).
Proof.
  revert st. induction l as [|[x y] l IH]; intros st Hc H; simpl; trivial.
  apply IH.
  - intros xy Hxy. apply Hc. now right.
  - pose proof (Hc (x, y) (or_introl eq_refl)) as E. simpl in E. subst x.
    now apply flat_x_step.
Qed.

Lemma welford_flat_y (c : float) (l : list (float * float)) (st : Welford) :
  (forall xy, In xy l -> snd xy = c) -> flat_y c st ->
  flat_y c (fold_left (fun st xy => welford_step st (fst xy) (snd xy)) l st).
Proof.
  revert st. induction l as [|[x y] l IH]; intros st Hc H; simpl; trivial.
  apply IH.
  - intros xy Hxy. apply Hc. now right.
  - pose proof (Hc (x, y) (or_introl eq_refl)) as E. simpl in E. subst y.
    now apply flat_y_step.
Qed.

Lemma flat_zero_or_nan (c mean ssq : spec_float) :
  flat c mean ssq -> sf_zero_or_nan ssq.
Proof. intros [[_ H]| ->]; [destruct ssq; try contradiction|]; exact I. Qed.

(** A product of the two sums of squares that is zero or NaN leaves no
    coefficient: the divisor is zero, or it is NaN and so is the
    quotient. *)
Lemma coefficient_nan (clip : bool) (st : Welford) :
  sf_zero_or_nan (SF64mul (Prim2SF (ssqdm_x st)) (Prim2SF (ssqdm_y st))) ->
  coefficient clip st = nan.
Proof.
  intros H. unfold coefficient. destruct (nobs st <? 1); trivial. cbv zeta.
  set (divisor := PrimFloat.sqrt (ssqdm_x st * ssqdm_y st)).
  assert (D : sf_zero_or_nan (Prim2SF divisor)).
  { unfold divisor. rewrite sqrt_spec, mul_spec.
    destruct (SF64mul _ _); try contradiction; exact I. }
  destruct (Prim2SF divisor) as [s| | |] eqn:E; try contradiction.
  - rewrite FloatAxioms.eqb_spec, E. reflexivity.
  - change S754_nan with (Prim2SF nan) in E. apply Prim2SF_inj in E. rewrite E.
    assert (V : (covxy st / nan)%float = nan).
    { apply Prim2SF_inj. rewrite div_spec.
      destruct (Prim2SF (covxy st)); reflexivity. }
    change (nan =? 0)%float with false. cbn [negb]. rewrite V.
    destruct clip; reflexivity.
Qed.

(** A column that holds one value only has no coefficient with any
    other column, whichever of the two it is in the loop. *)
Lemma pearson_flat_x (clip : bool) (xs ys : list float) (c : float) :
  (forall x, In x xs -> x = c) -> pearson clip xs ys = nan.
Proof.
  intros Hc. unfold pearson, welford.
  assert (F : flat_x c (fold_left (fun st xy => welford_step st (fst xy) (snd xy))
                          (combine xs ys) welford_init)).
  { apply welford_flat_x; [|now left].
    intros [x y] H. apply in_combine_l in H. now apply Hc. }
  destruct F as [E|F].
  - rewrite E. reflexivity.
  - apply coefficient_nan, SFmul_blank_l. exact (flat_zero_or_nan _ _ _ F).
Qed.

Lemma pearson_flat_y (clip : bool) (xs ys : list float) (c : float) :
  (forall y, In y ys -> y = c) -> pearson clip xs ys = nan.
Proof.
  intros Hc. unfold pearson, welford.
  assert (F : flat_y c (fold_left (fun st xy => welford_step st (fst xy) (snd xy))
                          (combine xs ys) welford_init)).
  { apply welford_flat_y; [|now left].
    intros [x y] H. apply in_combine_r in H. now apply Hc. }
  destruct F as [E|F].
  - rewrite E. reflexivity.
  - apply coefficient_nan, SFmul_blank_r. exact (flat_zero_or_nan _ _ _ F).
Qed.

Lemma SFcompare_refl (x : spec_float) : x <> S754_nan -> SFcompare x x = Some Eq.
Proof.
  destruct x as [s|s| |s m e]; intros H; try easy.
  - now destruct s.
  - simpl. change (IntDef.Z.compare e e) with (Z.compare e e).
    rewrite Z.compare_refl.
    change (Pos.compare_cont Eq m m) with (Pos.compare m m).
    rewrite Pos.compare_refl. now destruct s.
Qed.

Lemma is_nan_false (x : float) : is_nan x = false <-> Prim2SF x <> S754_nan.
Proof.
  unfold is_nan. rewrite FloatAxioms.eqb_spec. unfold SFeqb. split.
  - intros H E. rewrite E in H. discriminate.
  - intros H. now rewrite SFcompare_refl.
Qed.

Lemma dropnan_Some (x y : float) :
  dropnan x = Some y -> y = x /\ Prim2SF x <> S754_nan.
Proof.
  unfold dropnan. destruct (is_nan x) eqn:E; [discriminate|].
  intros [= <-]. split; trivial. now apply is_nan_false.
Qed.

Lemma abs_nonneg (x : float) :
  Prim2SF x <> S754_nan -> (0 <=? PrimFloat.abs x)%float = true.
Proof.
  intros H. rewrite FloatAxioms.leb_spec, abs_spec.
  destruct (Prim2SF x); try easy.
Qed.

Lemma abs_defined (x : float) :
  Prim2SF (PrimFloat.abs x) <> S754_nan -> Prim2SF x <> S754_nan.
Proof. rewrite abs_spec. intros H E. rewrite E in H. now apply H. Qed.

(** A number that is neither above [p] nor below [-p] has a magnitude
    of [p] at most. *)
Lemma SF_clip (p : positive) (k : Z) (v : spec_float) :
  v <> S754_nan ->
  SFltb (S754_finite false p k) v = false ->
  SFltb v (S754_finite true p k) = false ->
  SFleb (SFabs v) (S754_finite false p k) = true.
Proof.
  intros H A B. destruct v as [s|s| |s m e]; try easy.
  - destruct s; discriminate.
  - unfold SFltb, SFleb, SFabs, SFcompare in *. destruct s.
    + change (IntDef.Z.compare e k) with (Z.compare e k) in *.
      destruct (Z.compare e k); try easy.
      destruct (Pos.compare_cont Eq m p); easy.
    + change (IntDef.Z.compare e k) with (Z.compare e k) in *.
      change (IntDef.Z.compare k e) with (Z.compare k e) in *.
      rewrite (Z.compare_antisym e k) in A.
      destruct (Z.compare e k); try easy. cbn [CompOpp] in A.
      change (Pos.compare_cont Eq p m) with (Pos.compare p m) in A.
      change (Pos.compare_cont Eq m p) with (Pos.compare m p).
      rewrite (Pos.compare_antisym m p) in A.
      destruct (Pos.compare m p); easy.
Qed.

Lemma clip_le_one (val : float) :
  let r := if (1 <? val)%float then 1%float
           else if (val <? -1)%float then (-1)%float else val in
  Prim2SF r <> S754_nan -> (PrimFloat.abs r <=? 1)%float = true.
Proof.
  cbv zeta. destruct (1 <? val)%float eqn:A; [reflexivity|].
  destruct (val <? -1)%float eqn:B; [reflexivity|].
  intros H. rewrite FloatAxioms.ltb_spec in A, B.
  rewrite FloatAxioms.leb_spec, abs_spec.
  exact (SF_clip 4503599627370496 (-52) (Prim2SF val) H A B).
Qed.

Lemma coefficient_clipped (st : Welford) :
  Prim2SF (coefficient true st) <> S754_nan ->
  (PrimFloat.abs (coefficient true st) <=? 1)%float = true.
Proof.
  unfold coefficient. destruct (nobs st <? 1); [easy|]. cbv zeta.
  destruct (negb _); [|easy]. apply clip_le_one.
Qed.

(** Equal column values are equal binary64 numbers. *)
Lemma Q2float_Qeq (p q : Q) : (p == q)%Q -> Q2float p = Q2float q.
Proof. intros H. unfold Q2float. now rewrite (Qred_complete p q H). Qed.

(** An integer column converts as [astype(float)] converts it. *)
Lemma Q2float_inject_Z (z : Z) : Q2float (inject_Z z) = Z2float z.
Proof.
  assert (E : Qred (inject_Z z) = inject_Z z).
  { unfold Qred, inject_Z.
    pose proof (Z.ggcd_gcd z 1) as G.
    pose proof (Z.ggcd_correct_divisors z 1) as D.
    destruct (Z.ggcd z 1) as [g [aa bb]]. cbn [fst snd] in *.
    rewrite Z.gcd_1_r in G. subst g. destruct D as [Da Db].
    replace aa with z by lia. replace bb with 1 by lia. reflexivity. }
  unfold Q2float. rewrite E. reflexivity.
Qed.

Lemma constant_column {A : Type} (f : Row -> A) (rows : list Row) :
  (forall r1 r2 : Row, In r1 rows -> In r2 rows -> f r1 = f r2) ->
  exists c, forall x, In x (map f rows) -> x = c.
Proof.
  intros K. destruct rows as [|r0 rows].
  - exists (f (mkRow p45 None)). intros x [].
  - exists (f r0). intros x Hx. apply in_map_iff in Hx.
    destruct Hx as (r & <- & Hr). apply K; [exact Hr | now left].
Qed.

(** The entry of a feature whose column, or whose outcome column, holds
    one value only is NaN. *)
Lemma corr_entry_blank (clip : bool) (f : Patient -> Q) (rows : list Row) :
  constant_on f rows \/ constant_on outcome rows ->
  dropnan (PrimFloat.abs
             (pearson clip (map (fun r : Row => Z2float (heart_disease r)) rows)
                           (map (fun r : Row => Q2float (f r)) rows))) = None.
Proof.
  intros K.
  assert (E : pearson clip (map (fun r : Row => Z2float (heart_disease r)) rows)
                           (map (fun r : Row => Q2float (f r)) rows) = nan).
  { destruct K as [K|K].
    - destruct (constant_column (fun r : Row => Q2float (f r)) rows) as (c & Hc).
      + intros r1 r2 H1 H2. apply Q2float_Qeq. now apply K.
      + now apply (pearson_flat_y clip _ _ c).
    - destruct (constant_column (fun r : Row => Z2float (heart_disease r)) rows)
        as (c & Hc).
      + intros r1 r2 H1 H2. f_equal.
        apply inject_Z_injective. exact (K r1 r2 H1 H2).
      + now apply (pearson_flat_x clip _ _ c). }
  rewrite E. reflexivity.
Qed.

(** An entry that is a number is not negative, and not above 1 when the
    coefficient is clipped. *)
Lemma corr_entry_range (clip : bool) (xs ys : list float) (x : float) :
  dropnan (PrimFloat.abs (pearson clip xs ys)) = Some x ->
  (0 <=? x)%float = true /\ (clip = true -> (x <=? 1)%float = true).
Proof.
  intros H. apply dropnan_Some in H. destruct H as [-> N].
  apply abs_defined in N. split.
  - now apply abs_nonneg.
  - intros ->. now apply coefficient_clipped.
Qed.

Lemma corr_entry (clip : bool) (f : Patient -> Q) (rows : list Row) :
  magnitude_or_nan clip rows f
    (dropnan (PrimFloat.abs
                (pearson clip (map (fun r : Row => Z2float (heart_disease r)) rows)
                              (map (fun r : Row => Q2float (f r)) rows)))).
Proof.
  split.
  - apply corr_entry_blank.
  - intros x. apply corr_entry_range.
Qed.

(** C8 (as amended).  Every correlation vector of chart 5 is computed
    from rows of the filtered table and has one entry for each of the
    six numeric features.  An entry is NaN whenever the feature or the
    outcome takes a single value on those rows, as on fewer than two
    rows; an entry that is a number is not negative, and it is at most
    1 where pandas clips the coefficient. *)
Theorem correlation_magnitudes (clip : bool) (d : list Row)
    (vec : list (string * option float)) :
  In vec (vectors (fig5 clip d)) ->
  exists rows,
    (forall r, In r rows -> In r d)
    /\ vec = abs_corr clip rows
    /\ map fst vec = map fst cols
    /\ forall name v, In (name, v) vec ->
         exists f, In (name, f) cols /\ magnitude_or_nan clip rows f v.
Proof.
  intros H.
  assert (V : forall rows, (forall r, In r rows -> In r d) ->
                exists rows0,
                  (forall r, In r rows0 -> In r d)
                  /\ abs_corr clip rows = abs_corr clip rows0
                  /\ map fst (abs_corr clip rows) = map fst cols
                  /\ forall name v, In (name, v) (abs_corr clip rows) ->
                       exists f, In (name, f) cols
                                 /\ magnitude_or_nan clip rows0 f v).
  { intros rows Sub. exists rows.
    split; [exact Sub|]. split; [reflexivity|].
    split; [unfold abs_corr; rewrite map_map; reflexivity|].
    intros name v Hv. unfold abs_corr in Hv. apply in_map_iff in Hv.
    destruct Hv as ([name' f] & E & Hc). cbn [fst snd] in E.
    injection E as -> <-.
    exists f. split; trivial. apply corr_entry. }
  unfold fig5 in H. destruct (1 <? nunique_sex d)%nat; cbn [vectors] in H.
  - destruct H as [<-|[<-|[]]]; apply V; intros r Hr;
      apply filter_In in Hr; tauto.
  - destruct H as [<-|[]]. now apply V.
Qed.

Lemma correlation_magnitudes_witness :
  exists rows,
    (forall r, In r rows -> In r sample_d)
    /\ abs_corr true (filter (fun r : Row => Sex_Male r =? 0) sample_d)
       = abs_corr true rows
    /\ map fst (abs_corr true (filter (fun r : Row => Sex_Male r =? 0) sample_d))
       = map fst cols
    /\ forall name v,
         In (name, v) (abs_corr true (filter (fun r : Row => Sex_Male r =? 0) sample_d)) ->
         exists f, In (name, f) cols /\ magnitude_or_nan true rows f v.
Proof.
  apply (correlation_magnitudes true sample_d).
  right. left. reflexivity.
Defined.

(** C8 as first stated does not hold: with the angina checkbox ticked
    and "Male" selected the sample table is filtered down to three men,
    all of them with the disease; chart 5 computes one vector, and its
    entry for age is NaN, not a number of [0,1], with or without the
    clipping. *)
Lemma correlation_undefined_on_constant_outcome :
  apply_filters sample_angina_men sample_df = sample_men
  /\ ~ (forall vec name v,
          In vec (vectors (fig5 false sample_men)) -> In (name, v) vec ->
          exists x, v = Some x
                    /\ (0 <=? x)%float = true /\ (x <=? 1)%float = true)
  /\ ~ (forall vec name v,
          In vec (vectors (fig5 true sample_men)) -> In (name, v) vec ->
          exists x, v = Some x
                    /\ (0 <=? x)%float = true /\ (x <=? 1)%float = true).
Proof.
  split; [reflexivity|]. split; intros H.
  - destruct (H (abs_corr false sample_men) "age" None) as (x & E & _).
    + left. reflexivity.
    + left. reflexivity.
    + discriminate.
  - destruct (H (abs_corr true sample_men) "age" None) as (x & E & _).
    + left. reflexivity.
    + left. reflexivity.
    + discriminate.
Qed.

(** The converse fails in binary64: a column can vary and still have no
    coefficient, when its values round to one number. *)
Example abs_corr_blank_despite_spread (clip : bool) :
  ~ constant_on (fun p => inject_Z (cholesterol p)) sample_large
  /\ ~ constant_on outcome sample_large
  /\ In ("cholesterol", None) (abs_corr clip sample_large).
Proof.
  split; [|split].
  - intros K.
    specialize (K (nth 0 sample_large (mkRow p45 None))
                  (nth 1 sample_large (mkRow p45 None))
                  (or_introl eq_refl) (or_intror (or_introl eq_refl))).
    discriminate K.
  - intros K.
    specialize (K (nth 0 sample_large (mkRow p45 None))
                  (nth 1 sample_large (mkRow p45 None))
                  (or_introl eq_refl) (or_intror (or_introl eq_refl))).
    discriminate K.
  - destruct clip; right; right; left; reflexivity.
Qed.

(** * Further properties of the script *)

(** ** The loader: when it fails, what it keeps *)

Lemma age_max_None (raw : list Patient) : age_max raw = None <-> raw = [].
Proof.
  destruct raw as [|p raw]; simpl; [tauto|].
  destruct (age_max raw); split; discriminate.
Qed.

Lemma age_max_attained (raw : list Patient) (m : Z) :
  age_max raw = Some m -> exists p, In p raw /\ age p = m.
Proof.
  revert m. induction raw as [|q raw IH]; simpl; intros m E; [discriminate|].
  destruct (age_max raw) as [m'|].
  - injection E as <-. destruct (Z.max_spec (age q) m') as [[_ ->]|[_ ->]].
    + destruct (IH m' eq_refl) as (p & Hp & Ep). eauto.
    + eauto.
  - injection E as <-. eauto.
Qed.

Lemma load_data_cases (raw : list Patient) :
  load_data raw
  = match age_max raw with
    | None => Raise BinsNotMonotonic
    | Some m =>
        if m <? 70 then Raise BinsNotMonotonic
        else if m =? 70 then Raise BinEdgesNotUnique
        else Ok (map (fun p => mkRow p (cut (bins m) labels (age p))) raw)
    end.
Proof.
  unfold load_data. destruct (age_max raw) as [m|]; trivial.
  rewrite pd_cut_bins.
  destruct (m <? 70); trivial. destruct (m =? 70); trivial.
  now rewrite map_map, combine_map_r, map_map.
Qed.

(** X1.  The table loads exactly when some patient is older than 70.
    With everybody under 70, or nobody at all, [pd.cut] refuses the
    edges as not increasing; with an oldest patient of exactly 70 it
    refuses them as not unique; no other error comes out of the load. *)
Theorem load_data_outcome (raw : list Patient) :
  ((exists df, load_data raw = Ok df) <-> exists p, In p raw /\ 70 < age p)
  /\ (load_data raw = Raise BinsNotMonotonic <-> forall p, In p raw -> age p < 70)
  /\ (load_data raw = Raise BinEdgesNotUnique
      <-> (exists p, In p raw /\ age p = 70) /\ forall p, In p raw -> age p <= 70)
  /\ load_data raw <> Raise DuplicateEntries.
Proof.
  rewrite load_data_cases.
  destruct (age_max raw) as [m|] eqn:Em.
  - pose proof (age_max_bound raw m Em) as Hle.
    destruct (age_max_attained raw m Em) as (p0 & Hp0 & Ep0).
    split; [|split; [|split]].
    + split.
      * intros [df E]. destruct (Z.ltb_spec m 70); [discriminate|].
        destruct (Z.eqb_spec m 70); [discriminate|].
        exists p0. split; trivial. lia.
      * intros (p & Hp & H70). specialize (Hle p Hp).
        destruct (Z.ltb_spec m 70); [lia|]. destruct (Z.eqb_spec m 70); [lia|]. eauto.
    + split.
      * intros E p Hp. specialize (Hle p Hp).
        destruct (Z.ltb_spec m 70); [lia|]. destruct (Z.eqb_spec m 70); discriminate.
      * intros H. specialize (H p0 Hp0).
        destruct (Z.ltb_spec m 70); [reflexivity|lia].
    + split.
      * intros E. destruct (Z.ltb_spec m 70); [discriminate|].
        destruct (Z.eqb_spec m 70); [|discriminate].
        split; [exists p0; split; [exact Hp0 | lia] |].
        intros p Hp. specialize (Hle p Hp). lia.
      * intros [(p & Hp & E70) H]. specialize (H p0 Hp0). specialize (Hle p Hp).
        destruct (Z.ltb_spec m 70); [lia|].
        destruct (Z.eqb_spec m 70); [reflexivity|lia].
    + destruct (m <? 70); [discriminate|]. destruct (m =? 70); discriminate.
  - apply age_max_None in Em. subst raw. split; [|split; [|split]].
    + split; [intros [df E]; discriminate | intros (p & [] & _)].
    + split; [intros _ p [] | reflexivity].
    + split; [discriminate | intros [(p & [] & _) _]].
    + discriminate.
Qed.

(** X2.  Loading only adds a column: dropping it gives back the lines of
    the csv, in order.  Since the last edge is the maximum age, the
    oldest patient is always in "71+", so that group is never empty. *)
Theorem load_data_keeps_rows (raw : list Patient) (df : list Row) :
  load_data raw = Ok df ->
  map patient df = raw
  /\ exists r, In r df /\ Age_Group r = Some G71_plus
               /\ forall r' : Row, In r' df -> age r' <= age r.
Proof.
  intros L. destruct (load_data_Ok _ _ L) as (m & Em & Hm & ->). split.
  - rewrite map_map. simpl. apply map_id.
  - destruct (age_max_attained raw m Em) as (p0 & Hp0 & Ep0).
    exists (mkRow p0 (cut (bins m) labels (age p0))). split; [|split].
    + apply in_map_iff. eauto.
    + simpl. apply cut_bins_Some; trivial. unfold in_bin. simpl. lia.
    + intros r' Hr'. apply in_map_iff in Hr'. destruct Hr' as (p & <- & Hp).
      simpl. rewrite Ep0. now apply (age_max_bound raw m Em).
Qed.

Lemma load_data_keeps_rows_witness :
  map patient sample_df = sample_raw
  /\ exists r, In r sample_df /\ Age_Group r = Some G71_plus
               /\ forall r' : Row, In r' sample_df -> age r' <= age r.
Proof. apply (load_data_keeps_rows sample_raw sample_df). reflexivity. Defined.

(** X3.  In a loaded table the age group never decreases with age: of
    two records that have a group, the older one is in the same or in a
    later category. *)
Theorem age_group_monotone (raw : list Patient) (df : list Row)
    (r1 r2 : Row) (g1 g2 : AgeGroup) :
  load_data raw = Ok df -> In r1 df -> In r2 df ->
  Age_Group r1 = Some g1 -> Age_Group r2 = Some g2 ->
  age r1 <= age r2 -> code g1 <= code g2.
Proof.
  intros L H1 H2 E1 E2 Hle.
  destruct (load_data_Ok _ _ L) as (m & Em & Hm & _).
  destruct (load_data_row _ _ _ _ L Em H1) as (_ & _ & C1).
  destruct (load_data_row _ _ _ _ L Em H2) as (_ & _ & C2).
  rewrite E1 in C1. rewrite E2 in C2. symmetry in C1, C2.
  apply cut_bins_Some in C1, C2; trivial. unfold in_bin in C1, C2.
  destruct g1, g2; simpl in C1, C2; vm_compute; try discriminate; lia.
Qed.

Lemma age_group_monotone_witness : code G41_50 <= code G71_plus.
Proof.
  apply (age_group_monotone sample_raw sample_df
           (mkRow p45 (Some G41_50)) (mkRow p77 (Some G71_plus))).
  - reflexivity.
  - simpl. auto.
  - simpl. auto 7.
  - reflexivity.
  - reflexivity.
  - simpl. lia.
Defined.

(** ** The sidebar *)



Lemma narrower_satisfies (c c' : FilterCriteria) (r : Row) :
  narrower c c' -> satisfies c r -> satisfies c' r.
Proof.
  intros (Ncp & Necg & Nag & Nang & Nsex) (Hcp & Hecg & (g & Hg & Hag) & Hang & Hsex).
  unfold satisfies. split; [|split; [|split; [|split]]].
  - now apply Ncp.
  - destruct Necg as [E|E]; [now right|]. rewrite <- E. exact Hecg.
  - exists g. split; trivial. now apply Nag.
  - intros E. apply Hang. now apply Nang.
  - destruct Nsex as [E|E]; [now right|]. rewrite <- E. exact Hsex.
Qed.

(** X5.  Asking for more never brings rows back: when one widget state
    selects no more chest pain types and age groups than another, keeps
    its ECG and sex choices where that one has any, and has the angina
    box ticked if that one has, its filtered table is the other filtered
    table with rows dropped, and filtering the other's result with it
    gives the same as filtering the whole table. *)
Theorem narrower_selection (c c' : FilterCriteria) (df : list Row) :
  narrower c c' ->
  apply_filters c (apply_filters c' df) = apply_filters c df
  /\ subframe (apply_filters c df) (apply_filters c' df).
Proof.
  intros N.
  assert (E : apply_filters c (apply_filters c' df) = apply_filters c df).
  { rewrite !apply_filters_mask, filter_twice. apply filter_ext. intros r.
    destruct (mask c r) eqn:Hc; [|apply andb_false_r].
    apply mask_satisfies in Hc. apply (narrower_satisfies c c' r N) in Hc.
    apply mask_satisfies in Hc. now rewrite Hc. }
  split; trivial. rewrite <- E. rewrite (apply_filters_mask c).
  apply subframe_filter.
Qed.

Lemma narrower_selection_witness :
  apply_filters sample_angina_men (apply_filters sample_all sample_df)
  = apply_filters sample_angina_men sample_df
  /\ subframe (apply_filters sample_angina_men sample_df)
              (apply_filters sample_all sample_df).
Proof.
  apply (narrower_selection sample_angina_men sample_all sample_df).
  unfold narrower. simpl. repeat split; auto using incl_refl.
Defined.

Lemma filter_split_Permutation {A : Type} (f g h : A -> bool) (l : list A) :
  (forall x, In x l -> f x = g x || h x) ->
  (forall x, In x l -> g x && h x = false) ->
  Permutation (filter f l) (filter g l ++ filter h l).
Proof.
  induction l as [|x l IH]; intros Hf Hd; simpl; [constructor|].
  assert (IH' : Permutation (filter f l) (filter g l ++ filter h l)).
  { apply IH; intros y Hy; [apply Hf | apply Hd]; now right. }
  specialize (Hf x (or_introl eq_refl)). specialize (Hd x (or_introl eq_refl)).
  rewrite Hf. destruct (g x), (h x); simpl in *; try discriminate; trivial.
  - now constructor.
  - now apply Permutation_cons_app.
Qed.

(** X6.  With a 0/1 sex column, choosing "Male" and choosing "Female"
    split what "All" shows: every row of the "All" table is in exactly
    one of the two, with nothing lost or repeated. *)
Theorem sex_selection_partition (c : FilterCriteria) (df : list Row) :
  binary_sex df ->
  Permutation (apply_filters (with_sex "All" c) df)
              (apply_filters (with_sex "Male" c) df
               ++ apply_filters (with_sex "Female" c) df).
Proof.
  intros B. rewrite !apply_filters_mask.
  apply filter_split_Permutation; intros r Hr; unfold mask, with_sex; simpl;
    change (sex_val "Male") with 1; change (sex_val "Female") with 0;
    change (sex_val "All") with 0;
    rewrite ?orb_true_r, ?orb_false_r, ?andb_true_r;
    destruct (B r Hr) as [E|E]; rewrite E; simpl;
    rewrite ?andb_true_r, ?andb_false_r, ?orb_false_r, ?orb_true_r; reflexivity.
Qed.

Lemma sex_selection_partition_witness :
  Permutation (apply_filters (with_sex "All" sample_all) sample_df)
              (apply_filters (with_sex "Male" sample_all) sample_df
               ++ apply_filters (with_sex "Female" sample_all) sample_df).
Proof.
  apply (sex_selection_partition sample_all sample_df).
  intros r H. simpl in H.
  repeat (destruct H as [<-|H]); try contradiction; simpl; auto.
Defined.

(** ** Counting by key *)

Lemma zsum_Permutation (l l' : list Z) : Permutation l l' -> zsum l = zsum l'.
Proof. induction 1; simpl; lia. Qed.

(** Keys that select disjoint sets of rows: their counts add up to the
    number of rows that some key selects. *)
Lemma sizes_partition {K : Type} (sel : K -> Row -> bool) (keys : list K)
    (d : list Row) :
  NoDup keys ->
  (forall r k k', In r d -> In k keys -> In k' keys ->
                  sel k r = true -> sel k' r = true -> k = k') ->
  zsum (map (fun k => size (filter (sel k) d)) keys)
  = size (filter (fun r => existsb (fun k => sel k r) keys) d).
Proof.
  intros N. induction d as [|r d IH]; intros Dis.
  - simpl. apply zsum_map_zero. reflexivity.
  - assert (Dis' : forall r0 k k', In r0 d -> In k keys -> In k' keys ->
                     sel k r0 = true -> sel k' r0 = true -> k = k').
    { intros r0 k k' H0. apply Dis. now right. }
    specialize (IH Dis').
    rewrite (map_ext _ (fun k => size (filter (sel k) d)
                                 + (if sel k r then 1 else 0))).
    2:{ intros k. simpl. destruct (sel k r); [apply size_cons | lia]. }
    rewrite zsum_map_add, IH. simpl.
    destruct (existsb (fun k => sel k r) keys) eqn:Ex.
    + rewrite size_cons. f_equal.
      apply existsb_exists in Ex. destruct Ex as (k0 & Hk0 & S0).
      apply (zsum_indicator (fun k => sel k r) k0); trivial.
      intros k Hk. split; [|now intros ->].
      intros Sk. apply (Dis r k k0); trivial. now left.
    + rewrite zsum_map_zero; [lia|]. intros k Hk.
      destruct (sel k r) eqn:Sk; trivial.
      assert (T : existsb (fun k0 => sel k0 r) keys = true)
        by (apply existsb_exists; eauto).
      congruence.
Qed.

Lemma zsum_filter_nonzero {K : Type} (f : K -> Z) (keep : K -> bool) (keys : list K) :
  (forall k, In k keys -> keep k = false -> f k = 0) ->
  zsum (map f (filter keep keys)) = zsum (map f keys).
Proof.
  induction keys as [|k keys IH]; intros H; simpl; trivial.
  assert (IH' : zsum (map f (filter keep keys)) = zsum (map f keys)).
  { apply IH. intros k' Hk'. apply H. now right. }
  destruct (keep k) eqn:E; simpl; [lia|].
  rewrite (H k (or_introl eq_refl) E). lia.
Qed.

Lemma size_zero_nil {A : Type} (l : list A) : size l = 0 <-> l = [].
Proof.
  destruct l; [tauto|]. rewrite size_cons. pose proof (size_nonneg l).
  split; [lia | discriminate].
Qed.

Lemma size_pos_In {A : Type} (x : A) (l : list A) : In x l -> 0 < size l.
Proof.
  destruct l; [contradiction|]. rewrite size_cons. pose proof (size_nonneg l). lia.
Qed.

(** ** Sorted output *)

Section SortFacts.
Context {A : Type}.
Variable leb : A -> A -> bool.
Hypothesis leb_total : forall x y, leb x y = true \/ leb y x = true.

Lemma insert_HdRel (a x : A) (l : list A) :
  leb a x = true -> HdRel (fun u v => leb u v = true) a l ->
  HdRel (fun u v => leb u v = true) a (insert leb x l).
Proof.
  intros Hax H. destruct l as [|y l]; simpl.
  - now constructor.
  - destruct (leb x y); constructor; trivial. now inversion H.
Qed.

Lemma insert_Sorted (x : A) (l : list A) :
  Sorted (fun u v => leb u v = true) l ->
  Sorted (fun u v => leb u v = true) (insert leb x l).
Proof.
  induction 1 as [|y l S IH H]; simpl.
  - repeat constructor.
  - destruct (leb x y) eqn:E.
    + repeat constructor; trivial.
    + constructor; trivial. apply insert_HdRel; trivial.
      destruct (leb_total x y); congruence.
Qed.

Lemma sort_Sorted (l : list A) : Sorted (fun u v => leb u v = true) (sort leb l).
Proof.
  induction l as [|x l IH]; simpl; [constructor | now apply insert_Sorted].
Qed.
End SortFacts.

Lemma Sorted_map {A B : Type} (f : A -> B) (R : B -> B -> Prop) (l : list A) :
  Sorted (fun u v => R (f u) (f v)) l -> Sorted R (map f l).
Proof.
  induction 1 as [|x l S IH H]; simpl; constructor; trivial.
  destruct H; simpl; now constructor.
Qed.

Lemma filter_key_singleton (k : string) (keys : list string) :
  NoDup keys -> In k keys -> filter (String.eqb k) keys = [k].
Proof.
  induction 1 as [|x keys Hx N IH]; simpl; intros H; [contradiction|].
  destruct (String.eqb_spec k x) as [<-|Ne].
  - f_equal. clear IH H. induction keys as [|y keys IH]; simpl; trivial.
    destruct (String.eqb_spec k y) as [<-|_].
    + exfalso. apply Hx. now left.
    + apply IH; [intros H; apply Hx; now right | now inversion N].
  - destruct H as [->|H]; [contradiction | now apply IH].
Qed.

Lemma flat_map_singletons {A B : Type} (f : A -> list B) (g : A -> B) (l : list A) :
  (forall x, In x l -> f x = [g x]) -> flat_map f l = map g l.
Proof.
  induction l as [|x l IH]; intros H; simpl; trivial.
  rewrite (H x) by now left. simpl. f_equal. apply IH. intros y Hy. apply H. now right.
Qed.

Lemma Sorted_weaken {A : Type} (R R' : A -> A -> Prop) (l : list A) :
  (forall a b, R a b -> R' a b) -> Sorted R l -> Sorted R' l.
Proof.
  intros W. induction 1 as [|x l S IH H]; constructor; trivial.
  destruct H; constructor; auto.
Qed.

(** ** Chart 2: counts, rates and their join *)

Lemma ct_Permutation (d : list Row) :
  Permutation (ct d)
    (map (fun k => (k, size (filter (fun r : Row => String.eqb (resting_ecg r) k) d)))
         (unique String.eqb (map (fun r : Row => resting_ecg r) d))).
Proof. unfold ct. apply sort_Permutation. Qed.

Lemma ecg_count_pos (d : list Row) (k : string) :
  0 < size (filter (fun r : Row => String.eqb (resting_ecg r) k) d)
  <-> exists r : Row, In r d /\ resting_ecg r = k.
Proof.
  split.
  - intros H. destruct (filter (fun r : Row => String.eqb (resting_ecg r) k) d)
      as [|r l] eqn:E; [unfold size in H; simpl in H; lia|].
    assert (Hr : In r (filter (fun r0 : Row => String.eqb (resting_ecg r0) k) d))
      by (rewrite E; now left).
    apply filter_In in Hr. destruct Hr as [Hr Ek]. apply String.eqb_eq in Ek. eauto.
  - intros (r & Hr & Ek). apply (size_pos_In r). apply filter_In. split; trivial.
    now apply String.eqb_eq.
Qed.

Lemma ct_total (d : list Row) : zsum (map snd (ct d)) = size d.
Proof.
  rewrite (zsum_Permutation _ _ (Permutation_map snd (ct_Permutation d))), map_map.
  simpl.
  rewrite (sizes_partition (fun k (r : Row) => String.eqb (resting_ecg r) k)
             (unique String.eqb (map (fun r : Row => resting_ecg r) d)) d
             (unique_NoDup _ String.eqb_eq _)).
  - f_equal. rewrite <- (List.filter_true d) at 2. apply filter_ext_in.
    intros r Hr. apply existsb_exists. exists (resting_ecg r). split.
    + apply (unique_In _ String.eqb_eq). apply in_map_iff. eauto.
    + apply String.eqb_refl.
  - intros r k k' _ _ _ E1 E2. apply String.eqb_eq in E1, E2. congruence.
Qed.

(** X7.  The count table of chart 2 has one line per ECG category that
    occurs in the filtered table, each with the positive number of rows
    of that category, the most frequent category first; the counts add
    up to the number of filtered rows. *)
Theorem ct_counts (d : list Row) :
  NoDup (map fst (ct d))
  /\ Sorted (fun a b => snd b <= snd a) (ct d)
  /\ (forall k n, In (k, n) (ct d) <->
        0 < n /\ n = size (filter (fun r : Row => String.eqb (resting_ecg r) k) d))
  /\ zsum (map snd (ct d)) = size d.
Proof.
  pose proof (ct_Permutation d) as P.
  set (keys := unique String.eqb (map (fun r : Row => resting_ecg r) d)) in *.
  set (count := fun k => size (filter (fun r : Row => String.eqb (resting_ecg r) k) d)) in *.
  assert (Nk : NoDup keys) by apply (unique_NoDup _ String.eqb_eq).
  assert (Ik : forall k, In k keys <-> exists r : Row, In r d /\ resting_ecg r = k).
  { intros k. unfold keys. rewrite (unique_In _ String.eqb_eq), in_map_iff.
    split; intros (r & H1 & H2); eauto. }
  split; [|split; [|split]].
  - apply (Permutation_NoDup (l := keys)); trivial.
    rewrite P, map_map. simpl. now rewrite map_id.
  - unfold ct. apply (Sorted_weaken (fun u v => (snd v <=? snd u) = true)).
    + intros a b H. now apply Z.leb_le.
    + apply sort_Sorted. intros x y.
      destruct (Z.leb_spec (snd y) (snd x)); [now left | right; apply Z.leb_le; lia].
  - intros k n. split.
    + intros H. apply (Permutation_in _ P) in H. apply in_map_iff in H.
      destruct H as (k' & E & Hk). injection E as -> <-. split; trivial.
      apply ecg_count_pos. now apply Ik.
    + intros [Hpos ->]. apply (Permutation_in _ (Permutation_sym P)).
      apply in_map_iff. exists k. split; trivial.
      apply Ik. now apply ecg_count_pos.
  - apply ct_total.
Qed.

Lemma rt_keys_eq (d : list Row) :
  map fst (rt d)
  = sorted_keys String.eqb String.leb (map (fun r : Row => resting_ecg r) d).
Proof. unfold rt. rewrite map_map. simpl. apply map_id. Qed.

(** X8.  The rate table of chart 2 has exactly one line per ECG category
    that occurs in the filtered table, in ascending order of the
    category name. *)
Theorem rt_keys (d : list Row) :
  Sorted (fun a b => String.leb a b = true) (map fst (rt d))
  /\ NoDup (map fst (rt d))
  /\ forall k, In k (map fst (rt d)) <-> exists r : Row, In r d /\ resting_ecg r = k.
Proof.
  rewrite rt_keys_eq. split; [|split].
  - unfold sorted_keys. apply sort_Sorted. apply String.leb_total.
  - apply sorted_keys_NoDup, String.eqb_eq.
  - intros k. rewrite (sorted_keys_In _ String.eqb_eq), in_map_iff.
    split; intros (r & H1 & H2); eauto.
Qed.

(** The join, line by line. *)
Lemma df_e_lines (d : list Row) :
  df_e d
  = map (fun l => mkEcg (fst l) (snd l) (fst l)
                    (times100 (disease_mean
                       (filter (fun r : Row => String.eqb (resting_ecg r) (fst l)) d))))
        (ct d).
Proof.
  unfold df_e, merge. apply flat_map_singletons. intros [k n] Hl. simpl.
  unfold rt. rewrite filter_map_swap. simpl.
  rewrite filter_key_singleton; [reflexivity | |].
  - apply sorted_keys_NoDup, String.eqb_eq.
  - apply (sorted_keys_In _ String.eqb_eq).
    apply (Permutation_in _ (ct_Permutation d)) in Hl. apply in_map_iff in Hl.
    destruct Hl as (k' & E & Hk). injection E as -> _.
    exact (proj1 (unique_In _ String.eqb_eq _ _) Hk).
Qed.

(** X9.  The join of chart 2 loses no category and repeats none: its
    lines are the lines of the count table, in that order, each with the
    same category on both sides of the join and with 100 times the mean
    outcome of the category's rows as its rate. *)
Theorem df_e_rows (d : list Row) :
  map (fun e => (e_ecg e, e_count e)) (df_e d) = ct d
  /\ forall e, In e (df_e d) ->
       e_resting_ecg e = e_ecg e
       /\ e_rate e = times100 (disease_mean
                       (filter (fun r : Row => String.eqb (resting_ecg r) (e_ecg e)) d)).
Proof.
  rewrite df_e_lines. split.
  - rewrite map_map. simpl. rewrite <- (map_id (ct d)) at 2.
    apply map_ext. now intros [k n].
  - intros e He. apply in_map_iff in He. destruct He as (l & <- & _). simpl. auto.
Qed.

(** ** Chart 4: the bubbles *)

Lemma sex_rows_In (v : Z) (k : string) (d : list Row) (r : Row) :
  In r (sex_rows v k d) <-> In r d /\ Sex_Male r = v /\ chest_pain_type r = k.
Proof.
  unfold sex_rows. now rewrite filter_In, andb_true_iff, Z.eqb_eq, String.eqb_eq.
Qed.

(** The keys of chart 4: the (sex flag, chest pain type) pairs that
    have rows, each once. *)
Lemma df4_keys (d : list Row) :
  exists keys : list (Z * string),
    df4 d = map (fun vk => mkBubble (fst vk) (snd vk)
                             (size (sex_rows (fst vk) (snd vk) d))
                             (times100 (disease_mean (sex_rows (fst vk) (snd vk) d)))
                             (sex_label (fst vk))) keys
    /\ NoDup keys
    /\ (forall v k, In (v, k) keys <-> sex_rows v k d <> [])
    /\ zsum (map (fun vk => size (sex_rows (fst vk) (snd vk) d)) keys) = size d.
Proof.
  set (all := list_prod
                (sorted_keys Z.eqb Z.leb (map (fun r : Row => Sex_Male r) d))
                (sorted_keys String.eqb String.leb
                   (map (fun r : Row => chest_pain_type r) d))).
  set (keep := fun vk : Z * string => negb (is_empty (sex_rows (fst vk) (snd vk) d))).
  assert (Nall : NoDup all).
  { apply NoDup_list_prod; apply sorted_keys_NoDup;
      [apply Z.eqb_eq | apply String.eqb_eq]. }
  assert (Iall : forall r : Row, In r d -> In (Sex_Male r, chest_pain_type r) all).
  { intros r Hr. apply in_prod_iff. split.
    - apply (sorted_keys_In _ Z.eqb_eq). apply in_map_iff. eauto.
    - apply (sorted_keys_In _ String.eqb_eq). apply in_map_iff. eauto. }
  exists (filter keep all). split; [reflexivity|]. split; [now apply NoDup_filter|].
  split.
  - intros v k. rewrite filter_In. unfold keep. simpl. split.
    + intros [_ H] E. rewrite E in H. discriminate.
    + intros NE. destruct (sex_rows v k d) as [|r rows] eqn:E; [contradiction|].
      split; trivial.
      assert (Hr : In r (sex_rows v k d)) by (rewrite E; now left).
      apply sex_rows_In in Hr. destruct Hr as (Hr & <- & <-). now apply Iall.
  - rewrite zsum_filter_nonzero.
    2:{ intros vk _ E. unfold keep in E.
        destruct (sex_rows (fst vk) (snd vk) d); [reflexivity | discriminate]. }
    unfold sex_rows.
    rewrite (sizes_partition
               (fun (vk : Z * string) (r : Row) =>
                  (Sex_Male r =? fst vk) && String.eqb (chest_pain_type r) (snd vk))
               all d Nall).
    + f_equal. rewrite <- (List.filter_true d) at 2. apply filter_ext_in.
      intros r Hr. apply existsb_exists.
      exists (Sex_Male r, chest_pain_type r). split; [now apply Iall|].
      simpl. now rewrite Z.eqb_refl, String.eqb_refl.
    + intros r [v k] [v' k'] _ _ _ E1 E2. simpl in E1, E2.
      apply andb_true_iff in E1, E2. destruct E1 as [A1 B1], E2 as [A2 B2].
      apply Z.eqb_eq in A1, A2. apply String.eqb_eq in B1, B2. congruence.
Qed.

(** X10.  Chart 4 has one bubble per (sex flag, chest pain type) pair
    that occurs in the filtered table, never an empty one; the size of
    a bubble is the number of rows of its pair, and the sizes add up to
    the number of filtered rows. *)
Theorem df4_counts (d : list Row) :
  NoDup (map (fun b => (b_Sex_Male b, b_chest_pain_type b)) (df4 d))
  /\ (forall b, In b (df4 d) ->
        0 < b_count b
        /\ b_count b = size (sex_rows (b_Sex_Male b) (b_chest_pain_type b) d))
  /\ (forall r : Row, In r d ->
        exists b, In b (df4 d) /\ b_Sex_Male b = Sex_Male r
                  /\ b_chest_pain_type b = chest_pain_type r)
  /\ zsum (map b_count (df4 d)) = size d.
Proof.
  destruct (df4_keys d) as (keys & E & N & I & T). rewrite E.
  split; [|split; [|split]].
  - rewrite map_map. simpl. rewrite (map_ext _ (fun vk => vk)); [now rewrite map_id|].
    now intros [v k].
  - intros b Hb. apply in_map_iff in Hb. destruct Hb as ([v k] & <- & Hk). simpl.
    split; trivial. apply I in Hk.
    destruct (sex_rows v k d) as [|r rows]; [contradiction|].
    now apply (size_pos_In r); left.
  - intros r Hr. eexists. split.
    + apply in_map_iff. exists (Sex_Male r, chest_pain_type r). split; [reflexivity|].
      apply I. intros E0.
      assert (H : In r (sex_rows (Sex_Male r) (chest_pain_type r) d))
        by (apply sex_rows_In; auto).
      rewrite E0 in H. contradiction.
    + simpl. auto.
  - rewrite map_map. simpl. exact T.
Qed.

(** X11.  With 0/1 outcome and sex columns every bubble of chart 4 has
    a disease rate between 0 and 100 and a sex label, "Male" for flag 1
    and "Female" for flag 0, never a missing one. *)
Theorem df4_rates_and_labels (d : list Row) :
  binary_outcome d -> binary_sex d ->
  forall b, In b (df4 d) ->
    (exists q, b_rate b = Some q /\ (0 <= q <= 100)%Q)
    /\ ((b_Sex_Male b = 1 /\ b_Sex b = Some "Male")
        \/ (b_Sex_Male b = 0 /\ b_Sex b = Some "Female")).
Proof.
  intros Bo Bs b Hb. destruct (df4_keys d) as (keys & E & _ & I & _).
  rewrite E in Hb. apply in_map_iff in Hb. destruct Hb as ([v k] & <- & Hk). simpl.
  apply I in Hk.
  destruct (sex_rows v k d) as [|r rows] eqn:Er; [contradiction|]. split.
  - destruct (disease_mean_fraction (r :: rows)) as (q & Eq & Hq).
    + discriminate.
    + rewrite <- Er. unfold sex_rows. now apply binary_outcome_filter.
    + rewrite Eq. simpl. eexists. split; [reflexivity|]. Lqa.lra.
  - assert (Hr : In r (sex_rows v k d)) by (rewrite Er; now left).
    apply sex_rows_In in Hr. destruct Hr as (Hr & <- & _).
    destruct (Bs r Hr) as [F|F]; rewrite F; [right | left]; split; reflexivity.
Qed.

Lemma df4_rates_and_labels_witness :
  exists b, In b (df4 sample_d)
    /\ (exists q, b_rate b = Some q /\ (0 <= q <= 100)%Q)
    /\ ((b_Sex_Male b = 1 /\ b_Sex b = Some "Male")
        \/ (b_Sex_Male b = 0 /\ b_Sex b = Some "Female")).
Proof.
  assert (H : forall b, In b (df4 sample_d) ->
                (exists q, b_rate b = Some q /\ (0 <= q <= 100)%Q)
                /\ ((b_Sex_Male b = 1 /\ b_Sex b = Some "Male")
                    \/ (b_Sex_Male b = 0 /\ b_Sex b = Some "Female"))).
  { apply (df4_rates_and_labels sample_d).
    - intros r H. simpl in H.
      repeat (destruct H as [<-|H]); try contradiction; simpl; auto.
    - intros r H. simpl in H.
      repeat (destruct H as [<-|H]); try contradiction; simpl; auto. }
  destruct (df4 sample_d) as [|b l] eqn:E; [vm_compute in E; discriminate E|].
  exists b. split; [now left|]. apply H. now left.
Defined.

(** ** Charts 1 and 6: the pairs of age group and chest pain type *)

Lemma group_rows_nonempty_key (observed : bool) (key : Row -> string)
    (d : list Row) (g : AgeGroup) (k : string) :
  group_rows key g k d <> [] -> In (g, k) (group_keys observed key d).
Proof.
  intros NE. destruct (group_rows key g k d) as [|r rows] eqn:E; [contradiction|].
  assert (Hr : In r (group_rows key g k d)) by (rewrite E; now left).
  apply group_rows_In in Hr. destruct Hr as (Hr & Hg & Hk).
  apply group_keys_In. split.
  - exists r. repeat split; trivial. congruence.
  - intros _. rewrite E. discriminate.
Qed.

Lemma group_sizes_cover (observed : bool) (key : Row -> string) (d : list Row) :
  zsum (map (fun gk => size (group_rows key (fst gk) (snd gk) d))
            (group_keys observed key d))
  = size (filter (fun r : Row => notna (Age_Group r)) d).
Proof.
  unfold group_rows.
  rewrite (sizes_partition
             (fun (gk : AgeGroup * string) (r : Row) =>
                in_group (fst gk) r && String.eqb (key r) (snd gk))
             (group_keys observed key d) d (group_keys_NoDup observed key d)).
  - f_equal. apply filter_ext_in. intros r Hr.
    destruct (Age_Group r) as [g|] eqn:Eg; simpl.
    + apply existsb_exists. exists (g, key r). split.
      * apply group_rows_nonempty_key. intros E0.
        assert (H : In r (group_rows key g (key r) d))
          by (apply group_rows_In; auto).
        rewrite E0 in H. contradiction.
      * simpl. rewrite String.eqb_refl, andb_true_r. now apply in_group_eq.
    + destruct (existsb _ (group_keys observed key d)) eqn:Ex; trivial.
      apply existsb_exists in Ex. destruct Ex as (gk & _ & S).
      apply andb_true_iff in S. destruct S as [S _].
      apply in_group_eq in S. congruence.
  - intros r [g k] [g' k'] _ _ _ E1 E2. simpl in E1, E2.
    apply andb_true_iff in E1, E2. destruct E1 as [A1 B1], E2 as [A2 B2].
    apply in_group_eq in A1, A2. apply String.eqb_eq in B1, B2. congruence.
Qed.

(** X12.  The counts of chart 1 add up to the number of filtered rows
    that have an age group.  A share is undefined (0/0) exactly in the
    lines of an age group without rows, which only exist when pandas
    keeps unobserved categories; when it does not, every line counts at
    least one row. *)
Theorem mos_counts_and_shares (observed : bool) (d : list Row) :
  zsum (map mos_count (mos observed d))
  = size (filter (fun r : Row => notna (Age_Group r)) d)
  /\ (forall e, In e (mos observed d) ->
        (mos_pct e = None <-> filter (in_group (mos_Age_Group e)) d = []))
  /\ (observed = true -> forall e, In e (mos observed d) -> 0 < mos_count e).
Proof.
  rewrite mos_rows. split; [|split].
  - rewrite map_map. simpl. apply group_sizes_cover.
  - intros e He. apply in_map_iff in He. destruct He as ([g k] & <- & Hk).
    cbv zeta. cbn [mos_pct mos_Age_Group fst snd]. rewrite group_total.
    unfold true_div. rewrite <- size_zero_nil.
    destruct (Z.eqb_spec (size (filter (in_group g) d)) 0); split;
      trivial; try discriminate; contradiction.
  - intros -> e He. apply in_map_iff in He. destruct He as ([g k] & <- & Hk).
    cbv zeta. cbn [mos_count fst snd].
    apply group_keys_In in Hk. destruct Hk as [_ Hk]. specialize (Hk eq_refl).
    destruct (group_rows chest_pain_type g k d) as [|r rows]; [contradiction|].
    now apply (size_pos_In r); left.
Qed.


(** ** Chart 3: what the heatmap shows *)

Lemma Ok_injective {A : Type} (a b : A) : Ok a = Ok b -> a = b.
Proof. congruence. Qed.

(** X14.  The heatmap has one column per ST slope that occurs among the
    filtered rows with an age group, in ascending order.  Its index
    holds the age groups that have rows when pandas drops unobserved
    categories, and otherwise all five as soon as one row has an age
    group.  With a 0/1 outcome every entry is empty or a percentage
    between 0 and 100. *)
Theorem heat_values (observed : bool) (d : list Row) (p : Pivot) :
  binary_outcome d -> heat observed d = Ok p ->
  Forall (Forall (fun v => match v with
                           | Some q => (0 <= q <= 100)%Q
                           | None => True
                           end)) (pv_values p)
  /\ Sorted (fun a b => String.leb a b = true) (pv_columns p)
  /\ (forall s, In s (pv_columns p)
                <-> exists r : Row, In r d /\ Age_Group r <> None /\ st_slope r = s)
  /\ (forall g, In g (pv_index p)
                <-> if observed
                    then exists r : Row, In r d /\ Age_Group r = Some g
                    else exists r : Row, In r d /\ Age_Group r <> None).
Proof.
  intros B H. unfold heat, pivot in H. rewrite slope_keys in H.
  rewrite (has_duplicates_false pair_eqb pair_eqb_eq) in H
    by apply group_keys_NoDup.
  apply Ok_injective in H. subst p. cbn [pv_index pv_columns pv_values].
  split; [|split; [|split]].
  - apply Forall_forall. intros line Hl.
    apply in_map_iff in Hl. destruct Hl as (line' & <- & Hl).
    apply in_map_iff in Hl. destruct Hl as (g & <- & _).
    apply Forall_forall. intros v Hv.
    apply in_map_iff in Hv. destruct Hv as (v' & <- & Hv).
    apply in_map_iff in Hv. destruct Hv as (s & <- & _).
    rewrite long_value_slope.
    destruct (group_rows st_slope g s d) as [|r rows] eqn:E; [simpl; trivial|].
    destruct (disease_mean_fraction (r :: rows)) as (q & Eq & Hq).
    + discriminate.
    + rewrite <- E. unfold group_rows. now apply binary_outcome_filter.
    + rewrite Eq. simpl. Lqa.lra.
  - unfold sorted_keys. apply sort_Sorted. apply String.leb_total.
  - intros s. rewrite (sorted_keys_In _ String.eqb_eq), in_map_iff. split.
    + intros ([g s'] & E & Hk). simpl in E. subst s'.
      apply group_keys_In in Hk. apply Hk.
    + intros (r & Hr & Hg & Hs). destruct (Age_Group r) as [g|] eqn:Eg; [|contradiction].
      exists (g, s). split; trivial. apply group_rows_nonempty_key. intros E0.
      assert (Hin : In r (group_rows st_slope g s d)) by (apply group_rows_In; auto).
      rewrite E0 in Hin. contradiction.
  - intros g. rewrite filter_In, existsb_exists. split.
    + intros (_ & [g' s] & Hk & E). apply AgeGroup_eqb_eq in E. simpl in E. subst g'.
      apply group_keys_In in Hk. destruct Hk as [(r & Hr & Hg & Hs) Ho].
      destruct observed.
      * specialize (Ho eq_refl).
        destruct (group_rows st_slope g s d) as [|r' rows] eqn:E; [contradiction|].
        assert (Hin : In r' (group_rows st_slope g s d)) by (rewrite E; now left).
        apply group_rows_In in Hin. exists r'. tauto.
      * eauto.
    + intros H. split; [apply labels_all|]. destruct observed.
      * destruct H as (r & Hr & Hg). exists (g, st_slope r).
        split; [|apply AgeGroup_eqb_refl].
        apply group_rows_nonempty_key. intros E0.
        assert (Hin : In r (group_rows st_slope g (st_slope r) d))
          by (apply group_rows_In; auto).
        rewrite E0 in Hin. contradiction.
      * destruct H as (r & Hr & Hg). exists (g, st_slope r).
        split; [|apply AgeGroup_eqb_refl].
        apply group_keys_In. split; [eauto | discriminate].
Qed.

Lemma heat_values_witness :
  exists p, heat true sample_d = Ok p
    /\ Forall (Forall (fun v => match v with
                                | Some q => (0 <= q <= 100)%Q
                                | None => True
                                end)) (pv_values p)
    /\ pv_columns p = ["Flat"; "Up"]
    /\ pv_index p = [G41_50; G51_60; G61_70; G71_plus].
Proof.
  eexists. split; [reflexivity|]. split; [|split; reflexivity].
  refine (proj1 (heat_values true sample_d _ _ eq_refl)).
  intros r H. simpl in H.
  repeat (destruct H as [<-|H]); try contradiction; simpl; auto.
Defined.

(** ** Chart 5: blank vectors, and the two cohorts *)

Lemma constant_on_filter (f : Patient -> Q) (keep : Row -> bool) (rows : list Row) :
  constant_on f rows -> constant_on f (filter keep rows).
Proof.
  intros K r1 r2 H1 H2. apply filter_In in H1, H2. now apply K.
Qed.

Lemma abs_corr_blank (clip : bool) (rows : list Row) :
  constant_on outcome rows ->
  abs_corr clip rows = map (fun c => (fst c, None)) cols.
Proof.
  intros K. unfold abs_corr. apply map_ext. intros [name f]. cbn [fst snd].
  f_equal. apply corr_entry_blank. now right.
Qed.

(** X15.  When every filtered row has the same outcome, for instance
    when at most one row is left, chart 5 is blank: each vector it
    computes has NaN for all six features.  With at most one row it is
    the single polar bar chart that is drawn. *)
Theorem fig5_blank_without_spread (clip : bool) (d : list Row) :
  (constant_on outcome d ->
   forall vec, In vec (vectors (fig5 clip d)) ->
               vec = map (fun c => (fst c, None)) cols)
  /\ ((List.length d <= 1)%nat ->
      fig5 clip d = BarPolar (map (fun c => (fst c, None)) cols)).
Proof.
  split.
  - intros K vec H. unfold fig5 in H.
    destruct (1 <? nunique_sex d)%nat; cbn [vectors] in H.
    + destruct H as [<-|[<-|[]]]; apply abs_corr_blank; now apply constant_on_filter.
    + destruct H as [<-|[]]. now apply abs_corr_blank.
  - intros H. destruct d as [|r [|r' d]]; simpl in H; try lia.
    + destruct clip; reflexivity.
    + unfold fig5, nunique_sex. cbn [map unique filter List.length Nat.ltb Nat.leb].
      f_equal. apply abs_corr_blank.
      intros r1 r2 [<-|[]] [<-|[]]. reflexivity.
Qed.

Lemma fig5_blank_without_spread_witness :
  (forall vec, In vec (vectors (fig5 true sample_men)) ->
               vec = map (fun c => (fst c, None)) cols)
  /\ fig5 true [mkRow p45 (Some G41_50)]
     = BarPolar (map (fun c => (fst c, None)) cols).
Proof.
  split.
  - apply (proj1 (fig5_blank_without_spread true sample_men)).
    intros r1 r2 H1 H2. simpl in H1, H2.
    repeat (destruct H1 as [<-|H1]); try contradiction;
      repeat (destruct H2 as [<-|H2]); try contradiction; reflexivity.
  - apply (proj2 (fig5_blank_without_spread true [mkRow p45 (Some G41_50)])).
    simpl. lia.
Defined.

(** X16.  When chart 5 draws two traces over a 0/1 sex column, neither
    cohort is empty and the two cohorts share out the filtered rows:
    every row is in exactly one of them. *)
Theorem cohorts_partition (d : list Row) :
  binary_sex d -> (1 < nunique_sex d)%nat ->
  filter (fun r : Row => Sex_Male r =? 1) d <> []
  /\ filter (fun r : Row => Sex_Male r =? 0) d <> []
  /\ Permutation d (filter (fun r : Row => Sex_Male r =? 1) d
                    ++ filter (fun r : Row => Sex_Male r =? 0) d).
Proof.
  intros B H. unfold nunique_sex in H.
  apply (unique_two Z.eqb Z.eqb_eq) in H. destruct H as (x & y & Hx & Hy & N).
  apply in_map_iff in Hx, Hy.
  destruct Hx as (r1 & <- & H1), Hy as (r2 & <- & H2).
  assert (M : exists r : Row, In r d /\ Sex_Male r = 1).
  { destruct (B r1 H1), (B r2 H2); eauto. congruence. }
  assert (F : exists r : Row, In r d /\ Sex_Male r = 0).
  { destruct (B r1 H1), (B r2 H2); eauto. congruence. }
  split; [|split].
  - destruct M as (r & Hr & E). intros E0.
    assert (Hin : In r (filter (fun r0 : Row => Sex_Male r0 =? 1) d)).
    { apply filter_In. split; trivial. now apply Z.eqb_eq. }
    rewrite E0 in Hin. contradiction.
  - destruct F as (r & Hr & E). intros E0.
    assert (Hin : In r (filter (fun r0 : Row => Sex_Male r0 =? 0) d)).
    { apply filter_In. split; trivial. now apply Z.eqb_eq. }
    rewrite E0 in Hin. contradiction.
  - rewrite <- (List.filter_true d) at 1.
    apply filter_split_Permutation; intros r Hr;
      destruct (B r Hr) as [E|E]; rewrite E; reflexivity.
Qed.

Lemma cohorts_partition_witness :
  filter (fun r : Row => Sex_Male r =? 1) sample_pair <> []
  /\ filter (fun r : Row => Sex_Male r =? 0) sample_pair <> []
  /\ Permutation sample_pair
       (filter (fun r : Row => Sex_Male r =? 1) sample_pair
        ++ filter (fun r : Row => Sex_Male r =? 0) sample_pair).
Proof.
  apply (cohorts_partition sample_pair).
  - intros r H. simpl in H.
    repeat (destruct H as [<-|H]); try contradiction; simpl; auto.
  - vm_compute. lia.
Defined.

(** ** The charts on a filtered table *)

Lemma apply_filters_notna (c : FilterCriteria) (df : list Row) :
  filter (fun r : Row => notna (Age_Group r)) (apply_filters c df)
  = apply_filters c df.
Proof.
  rewrite <- (List.filter_true (apply_filters c df)) at 2.
  apply filter_ext_in. intros r Hr.
  rewrite apply_filters_mask in Hr. apply filter_In in Hr. destruct Hr as [_ Hk].
  apply mask_satisfies in Hk. destruct Hk as (_ & _ & (g & -> & _) & _). reflexivity.
Qed.

(** X17.  On the table that the filter block hands to the charts, the
    counts of chart 1, the counts of chart 2 (before and after the
    join) and the bubble sizes of chart 4 all add up to the number of
    filtered rows: no chart loses or repeats a row. *)
Theorem chart_totals_agree (observed : bool) (c : FilterCriteria) (df : list Row) :
  zsum (map mos_count (mos observed (apply_filters c df))) = size (apply_filters c df)
  /\ zsum (map snd (ct (apply_filters c df))) = size (apply_filters c df)
  /\ zsum (map e_count (df_e (apply_filters c df))) = size (apply_filters c df)
  /\ zsum (map b_count (df4 (apply_filters c df))) = size (apply_filters c df).
Proof.
  set (d := apply_filters c df). split; [|split; [|split]].
  - rewrite mos_rows, map_map. simpl. rewrite group_sizes_cover.
    unfold d. now rewrite apply_filters_notna.
  - apply ct_total.
  - rewrite df_e_lines, map_map. simpl. apply ct_total.
  - destruct (df4_keys d) as (keys & E & _ & _ & T). rewrite E, map_map. simpl. exact T.
Qed.

(** X18.  Emptying the age group multiselect empties the filtered
    table, whatever the other widgets say, and so does a table in which
    no row has an age group. *)
Theorem no_age_group_no_rows (c : FilterCriteria) (df : list Row) :
  ag c = [] \/ (forall r : Row, In r df -> Age_Group r = None) ->
  apply_filters c df = [].
Proof.
  intros H. rewrite apply_filters_mask.
  rewrite <- (List.filter_false df). apply filter_ext_in. intros r Hr.
  destruct (mask c r) eqn:Hk; trivial.
  apply mask_satisfies in Hk. destruct Hk as (_ & _ & (g & Hg & Hin) & _).
  destruct H as [E|E].
  - rewrite E in Hin. contradiction.
  - rewrite (E r Hr) in Hg. discriminate.
Qed.

Lemma no_age_group_no_rows_witness :
  apply_filters (mkCriteria ["ATA"; "NAP"; "ASY"] "All" [] false "All") sample_df = [].
Proof.
  apply (no_age_group_no_rows
           (mkCriteria ["ATA"; "NAP"; "ASY"] "All" [] false "All") sample_df).
  left. reflexivity.
Defined.
